(** * Chroma-key removal (main.py): a shallow embedding and its properties

    The development follows [main.py]: the colour-distance classifier
    [colorclose], the frame compositor [remove_green_screen] and the batch
    driver [remove_green_screen_from_video].

    Numbers.  Python computes the classifier on floats (binary64).  The
    embedding is written once over an interface [PyNum] of the arithmetic the
    code uses, and read at two instances: the kernel's binary64 floats, on
    which a call evaluates the way the interpreter does, rounding, overflow
    and NaN included; and the real numbers [R], an idealisation without
    them.  What is said of the classifier and of the masks is proved of the
    binary64 reading, on the chrominances that the compositor passes
    (bytes): by tables over all squared distances for the default
    tolerances (30, 120), and from the order of binary64 for tolerances
    with [tolb <= tola].  The real reading gives the numbers that the
    binary64 values approximate; for the defaults that the batch driver
    passes the two readings are proved to give the same images.

    Errors.  A Python exception is a value [Raise e] of the result type; the
    code catches none, so [bind] propagates it.

    Libraries.  numpy, Pillow and moviepy are not part of the repository.
    What the code calls of them is modelled by what it computes on bytes
    ([Image.new], [getpixel], [paste] with a mask, [ImageChops.subtract],
    the cast [numpy.uint8]); Pillow's colour conversions are parameters; the
    video decoder is represented by the list of frames it yields, and the
    file system by the list of images saved.  A key colour that the caller
    gives is taken to hold bytes, as one that [getpixel] returns does: the
    errors that numpy and Pillow raise on larger integers are not
    modelled, and the properties of calls with a given key colour assume
    bytes. *)

From Stdlib Require Import PrimFloat SpecFloat FloatOps.
From Stdlib Require Uint63.
From Stdlib Require Ascii String DecimalString DecimalNat FloatAxioms.
From Stdlib Require Import ZArith List Bool Lia Reals Lra R_Ifp R_sqrt.
Import ListNotations.

Set Implicit Arguments.
Set Warnings "-inexact-float".

(** ** Exceptions *)

Inductive exc : Type :=
| ZeroDivisionError
| ValueError
| IndexError
| TypeError
| OverflowError.

Definition result (A : Type) : Type := (exc + A)%type.

Definition Ok {A : Type} (a : A) : result A := inr a.
Definition Raise {A : Type} (e : exc) : result A := inl e.

Definition bind {A B : Type} (m : result A) (k : A -> result B) : result B :=
  match m with
  | inl e => inl e
  | inr a => k a
  end.

Declare Scope py_scope.
Delimit Scope py_scope with py.
Notation "x <- m ;; k" := (bind m (fun x => k))
  (at level 61, m at next level, right associativity) : py_scope.
Local Open Scope py_scope.

Fixpoint mapM {A B : Type} (f : A -> result B) (l : list A) : result (list B) :=
  match l with
  | [] => Ok []
  | a :: l' => b <- f a ;; bs <- mapM f l' ;; Ok (b :: bs)
  end.

(** ** The arithmetic of the interpreter *)

Class PyNum (A : Type) : Type := {
  of_Z : Z -> A;
  add : A -> A -> A;
  sub : A -> A -> A;
  mul : A -> A -> A;
  quot : A -> A -> A;      (* the quotient, for a divisor that is not zero *)
  root : A -> A;           (* the square root, for an argument >= 0 *)
  ltb : A -> A -> bool;
  eqb : A -> A -> bool;
  is_inf : A -> bool;      (* math.isinf *)
  trunc : A -> Z           (* rounding towards zero, as a C cast does *)
}.

Declare Scope num_scope.
Delimit Scope num_scope with num.
Infix "+" := add : num_scope.
Infix "-" := sub : num_scope.
Infix "*" := mul : num_scope.
Infix "<?" := ltb : num_scope.
Infix "=?" := eqb : num_scope.

(** *** Real numbers *)

(** The idealised reading: no rounding, no overflow, no NaN. *)

Definition Rltb (x y : R) : bool := if Rlt_dec x y then true else false.
Definition Reqb (x y : R) : bool := if Req_dec_T x y then true else false.

(** [Int_part] is the floor; a cast rounds towards zero. *)
Definition Rtrunc (x : R) : Z :=
  if Rle_dec 0 x then Int_part x else (- Int_part (- x))%Z.

#[export] Instance R_PyNum : PyNum R := {
  of_Z := IZR;
  add := Rplus;
  sub := Rminus;
  mul := Rmult;
  quot := Rdiv;
  root := R_sqrt.sqrt;
  ltb := Rltb;
  eqb := Reqb;
  is_inf := fun _ => false;
  trunc := Rtrunc
}.

(** *** binary64 *)

(** [float(n)] for a Python int [n] below 2^63 in absolute value; exact for
    |n| < 2^53.  The compositor passes bytes. *)
Definition float_of_Z (z : Z) : float :=
  match z with
  | Z0 => PrimFloat.zero
  | Zpos _ => PrimFloat.of_uint63 (Uint63.of_Z z)
  | Zneg p => PrimFloat.opp (PrimFloat.of_uint63 (Uint63.of_Z (Zpos p)))
  end.

(** The integer part of a finite float; NaN and the infinities have none
    (a cast of them is undefined in C, and numpy's result depends on the
    platform): 0 stands for it, and no property below depends on it. *)
Definition float_trunc (x : float) : Z :=
  match FloatOps.Prim2SF x with
  | S754_finite s m e =>
      let v := if (0 <=? e)%Z then (Zpos m * 2 ^ e)%Z else (Zpos m / 2 ^ (- e))%Z in
      if s then (- v)%Z else v
  | _ => 0%Z
  end.

#[export] Instance float_PyNum : PyNum float := {
  of_Z := float_of_Z;
  add := PrimFloat.add;
  sub := PrimFloat.sub;
  mul := PrimFloat.mul;
  quot := PrimFloat.div;
  root := PrimFloat.sqrt;
  ltb := PrimFloat.ltb;
  eqb := PrimFloat.eqb;
  is_inf := PrimFloat.is_infinity;
  trunc := float_trunc
}.

(** ** The classifier *)

Section Classifier.

Context {A : Type} `{PyNum A}.
Local Open Scope num_scope.

(** [x / y]: Python raises ZeroDivisionError on a zero divisor. *)
Definition py_div (x y : A) : result A :=
  if y =? of_Z 0 then Raise ZeroDivisionError else Ok (quot x y).

(** [math.sqrt(x)]: ValueError ("math domain error") below zero. *)
Definition py_sqrt (x : A) : result A :=
  if x <? of_Z 0 then Raise ValueError else Ok (root x).

(** [x ** 2]: OverflowError ("Numerical result out of range") when the
    square of a finite float is too large for a float; the square of an
    infinity is an infinity, the square of a NaN a NaN. *)
Definition sq (x : A) : result A :=
  if is_inf (x * x) && negb (is_inf x) then Raise OverflowError
  else Ok (x * x).

(** main.py, lines 8-30.  The operands of line 23 are evaluated from left
    to right. *)
Definition colorclose (Cb_p Cr_p Cb_key Cr_key tola tolb : A) : result A :=
  dCb <- sq (Cb_key - Cb_p) ;;
  dCr <- sq (Cr_key - Cr_p) ;;
  temp <- py_sqrt (dCb + dCr) ;;
  z <- (if temp <? tola then Ok (of_Z 0)
        else if temp <? tolb then py_div (temp - tola) (tolb - tola)
        else Ok (of_Z 1)) ;;
  Ok (of_Z 255 * z).

End Classifier.


(** ** Frames and images *)

(** A decoded video frame: a [numpy] array of unsigned bytes of shape
    (nrows, ncols, nchan), in C order. *)
Record ndarray : Type := NdArray {
  nrows : nat;
  ncols : nat;
  nchan : nat;
  buffer : list Z
}.

(** [frame[i // ncols, i % ncols, :]], the channels of the pixel number [i]. *)
Definition pixel_at (frame : ndarray) (i : nat) : list Z :=
  firstn (nchan frame) (skipn (i * nchan frame) (buffer frame)).

Definition ycbcr : Type := (Z * Z * Z)%type.
Definition rgba : Type := (Z * Z * Z * Z)%type.

(** A Pillow image: its size and its pixels in row-major order, as
    [Image.getdata] lists them. *)
Record image (P : Type) : Type := Img {
  width : nat;
  height : nat;
  getdata : list P
}.

Definition size {P : Type} (im : image P) : nat * nat := (width im, height im).

(** [Image.new(mode, (x, y), color)] *)
Definition Image_new {P : Type} (xy : nat * nat) (color : P) : image P :=
  Img (fst xy) (snd xy) (repeat color (fst xy * snd xy)).

(** [im.getpixel((x, y))]; IndexError outside the image. *)
Definition getpixel {P : Type} (im : image P) (xy : nat * nat) : result P :=
  let '(x, y) := xy in
  if (x <? width im)%nat && (y <? height im)%nat then
    match nth_error (getdata im) (y * width im + x) with
    | Some p => Ok p
    | None => Raise IndexError
    end
  else Raise IndexError.

(** Pillow stores a channel in a byte: CLIP8. *)
Definition clip8 (v : Z) : Z := Z.max 0 (Z.min 255 v).

Definition clip8_ycbcr (c : ycbcr) : ycbcr :=
  let '(y, cb, cr) := c in (clip8 y, clip8 cb, clip8 cr).

(** Pillow's BLEND8 (Paste.c): [in1] and [in2] mixed by [mask]/255, rounded
    by DIV255. *)
Definition blend8 (mask in1 in2 : Z) : Z :=
  let tmp := (in1 * (255 - mask) + in2 * mask + 128)%Z in
  Z.shiftr (Z.shiftr tmp 8 + tmp) 8.

Definition blend_rgba (mask : Z) (p1 p2 : rgba) : rgba :=
  let '(r1, g1, b1, a1) := p1 in
  let '(r2, g2, b2, a2) := p2 in
  (blend8 mask r1 r2, blend8 mask g1 g2, blend8 mask b1 b2, blend8 mask a1 a2).

(** One channel of [ImageChops.subtract] (scale 1.0, offset 0). *)
Definition chop_subtract (in1 in2 : Z) : Z := clip8 (in1 - in2).

Definition subtract_rgba (p1 p2 : rgba) : rgba :=
  let '(r1, g1, b1, a1) := p1 in
  let '(r2, g2, b2, a2) := p2 in
  (chop_subtract r1 r2, chop_subtract g1 g2, chop_subtract b1 b2,
   chop_subtract a1 a2).

(** [ImageChops.subtract(image1, image2)] *)
Definition subtract (image1 image2 : image rgba) : image rgba :=
  Img (width image1) (height image1)
      (map (fun pq => subtract_rgba (fst pq) (snd pq))
           (combine (getdata image1) (getdata image2))).

Definition alpha_channel (im : image rgba) : list Z :=
  map (fun p : rgba => snd p) (getdata im).

Definition same_size {P Q : Type} (im1 : image P) (im2 : image Q) : bool :=
  ((width im1 =? width im2) && (height im1 =? height im2))%nat.

(** ** The frame compositor *)

Section Compositor.

Context {A : Type} `{PyNum A}.

(** Pillow's colour conversions are not part of the repository: the
    conversion of a pixel of 2 (LA), 3 (RGB) or 4 (RGBA) channels to
    YCbCr, and of a YCbCr pixel to RGB.  Whatever they compute is stored
    in bytes. *)
Variable convert_YCbCr : list Z -> ycbcr.
Variable convert_RGB : ycbcr -> Z * Z * Z.

(** [Image.fromarray(frame).convert('YCbCr')], line 46.  [fromarray] knows
    the byte layouts of 2, 3 and 4 channels and raises TypeError on any
    other. *)
Definition fromarray_YCbCr (frame : ndarray) : result (image ycbcr) :=
  if ((nchan frame =? 2) || (nchan frame =? 3) || (nchan frame =? 4))%nat then
    Ok (Img (ncols frame) (nrows frame)
            (map (fun i => clip8_ycbcr (convert_YCbCr (pixel_at frame i)))
                 (seq 0 (nrows frame * ncols frame))))
  else Raise TypeError.

(** [im.convert('RGBA')] of a YCbCr image: through RGB, fully opaque. *)
Definition convert_RGBA_pixel (p : ycbcr) : rgba :=
  let '(r, g, b) := convert_RGB p in (clip8 r, clip8 g, clip8 b, 255%Z).

Definition convert_RGBA (im : image ycbcr) : image rgba :=
  Img (width im) (height im) (map convert_RGBA_pixel (getdata im)).

(** [self.paste(im, mask)]: [im] is converted to the mode of [self] and
    mixed into it pixel by pixel, all four channels alike, with the mask
    as weight; images of different sizes do not match. *)
Definition paste (self : image rgba) (im : image ycbcr) (mask : image Z)
  : result (image rgba) :=
  if same_size self im && same_size self mask then
    Ok (Img (width self) (height self)
            (map (fun t => blend_rgba (snd t) (fst (fst t)) (snd (fst t)))
                 (combine (combine (getdata self) (getdata (convert_RGBA im)))
                          (getdata mask))))
  else Raise ValueError.

(** [numpy.uint8(x)] for a float: the integer part, in a byte. *)
Definition uint8 (x : A) : Z := (trunc x mod 256)%Z.

(** The elementwise expression of line 67:
    [numpy.uint8(255 - 255 * (a / 255))]. *)
Definition invert_byte (a : A) : Z :=
  uint8 (sub (of_Z 255) (mul (of_Z 255) (quot a (of_Z 255)))).

(** The local variables of [remove_green_screen] when it returns. *)
Record locals : Type := Locals {
  inDataFG : image ycbcr;
  keyColor : ycbcr;
  tolerance : A * A;
  alphaMask : list A;
  imMask : image Z;
  invertMask : image Z;
  allgreen : image ycbcr;
  colorMask : image rgba;
  cleaned : image rgba
}.

Local Open Scope num_scope.

(** main.py, lines 46-82, keeping every local.  The components of
    [keyColor] are bytes when it is sampled; for a given key colour of
    other integers [Image.new] is modelled by its clipping only. *)
Definition remove_green_screen_locals (frame : ndarray) (index : nat)
    (keyColor : option ycbcr) (tolerance : option (A * A)) : result locals :=
  inDataFG <- fromarray_YCbCr frame ;;
  keyColor <- match keyColor with
              | None => getpixel inDataFG (1, 1)%nat
              | Some k => Ok k
              end ;;
  let tolerance := match tolerance with
                   | None => (of_Z 30, of_Z 120)
                   | Some t => t
                   end in
  let '(Y_key, Cb_key, Cr_key) := keyColor in
  let '(tola, tolb) := tolerance in
  let '(x, y) := size inDataFG in
  (* an image without pixels has no columns to slice: foreground[:, 1] *)
  foreground <- match getdata inDataFG with
                | [] => Raise IndexError
                | l => Ok l
                end ;;
  alphaMask <- mapM (fun p : ycbcr =>
                       let '(_, Cb_p, Cr_p) := p in
                       colorclose (of_Z Cb_p) (of_Z Cr_p)
                                  (of_Z Cb_key) (of_Z Cr_key) tola tolb)
                    foreground ;;
  let imMask := Img x y (map uint8 alphaMask) in
  let invertMask := Img x y (map invert_byte alphaMask) in
  let colorMask := Image_new (x, y) (0, 0, 0, 0)%Z in
  let allgreen := Image_new (x, y) (clip8_ycbcr keyColor) in
  colorMask <- paste colorMask allgreen invertMask ;;
  let inDataFG_rgba := convert_RGBA inDataFG in
  let cleaned := subtract inDataFG_rgba colorMask in
  Ok (Locals inDataFG keyColor tolerance alphaMask imMask invertMask
             allgreen colorMask cleaned).

Definition remove_green_screen (frame : ndarray) (index : nat)
    (keyColor : option ycbcr) (tolerance : option (A * A))
  : result (image rgba) :=
  l <- remove_green_screen_locals frame index keyColor tolerance ;;
  Ok (cleaned l).

(** ** The batch driver *)

(** What the driver leaves behind: the images saved, each under the index
    of its frame ([output_<idx>.png]), and the indices printed. *)
Record world : Type := World {
  saved : list (nat * image rgba);
  printed : list nat
}.

(** The condition of line 101. *)
Definition selected (process_all_frames : bool) (idx : nat) : bool :=
  process_all_frames || (idx mod 5 =? 0)%nat.

(** The loop of lines 99-110 from frame number [idx] on.  No exception is
    caught: the first one ends the loop and the call. *)
Fixpoint process_frames (process_all_frames : bool) (idx : nat)
    (frames : list ndarray) (w : world) : world * result unit :=
  match frames with
  | [] => (w, Ok tt)
  | frame :: rest =>
      if selected process_all_frames idx then
        match remove_green_screen frame idx None None with
        | inl e => (w, Raise e)
        | inr cleaned_frame =>
            process_frames process_all_frames (S idx) rest
              (World (saved w ++ [(idx, cleaned_frame)]) (printed w ++ [idx]))
        end
      else process_frames process_all_frames (S idx) rest w
  end.

(** main.py, lines 84-113; [frames] is what [iter_frames] yields for the
    input video, and [process_all_frames] is [None] when the caller omits
    it. *)
Definition remove_green_screen_from_video (frames : list ndarray)
    (process_all_frames : option bool) : world * result unit :=
  let process_all_frames :=
    match process_all_frames with None => true | Some b => b end in
  process_frames process_all_frames 0 frames (World [] []).

End Compositor.

(** ** Concrete runs *)

(** The JFIF conversion between RGB and YCbCr, rounded to the nearest
    integer.  Pillow computes it from tables; the runs below apply it to
    black and to (0, 128, 128) only, where the result is exact: black is
    (0, 128, 128). *)
Definition jfif_YCbCr (p : list Z) : ycbcr :=
  match p with
  | [l; _] => (l, 128, 128)%Z
  | r :: g :: b :: _ =>
      (((299 * r + 587 * g + 114 * b + 500) / 1000)%Z,
       (128 + (- 168736 * r - 331264 * g + 500000 * b + 500000) / 1000000)%Z,
       (128 + (500000 * r - 418688 * g - 81312 * b + 500000) / 1000000)%Z)
  | _ => (0, 128, 128)%Z
  end.

Definition jfif_RGB (c : ycbcr) : Z * Z * Z :=
  let '(y, cb, cr) := c in
  (y + (1402000 * (cr - 128) + 500000) / 1000000,
   y + (- 344136 * (cb - 128) - 714136 * (cr - 128) + 500000) / 1000000,
   y + (1772000 * (cb - 128) + 500000) / 1000000)%Z.

(** A black frame of 2 x 2 RGB pixels. *)
Definition black_frame : ndarray := NdArray 2 2 3 (repeat 0%Z 12).

(** An array of five channels, which [Image.fromarray] cannot handle. *)
Definition five_channel_frame : ndarray := NdArray 2 2 5 (repeat 0%Z 20).

(** Six frames of which only the first and the last are selected when one
    frame in five is processed. *)
Definition six_frames (between : ndarray) : list ndarray :=
  [black_frame; between; between; between; between; black_frame].

(** ** The quantities the properties are stated with *)

(** The distance of line 23, [temp], on real numbers. *)
Definition chroma_distance (Cb_p Cr_p Cb_key Cr_key : R) : R :=
  sqrt ((Cb_key - Cb_p) * (Cb_key - Cb_p) + (Cr_key - Cr_p) * (Cr_key - Cr_p)).

(** The value of [z] on line 30 as a function of the distance. *)
Definition ramp (d tola tolb : R) : R :=
  if Rlt_dec d tola then 0
  else if Rlt_dec d tolb then (d - tola) / (tolb - tola)
  else 1.

(** The distance of a pixel's chrominance to the key's. *)
Definition pixel_distance (key p : ycbcr) : R :=
  let '(_, Cb_key, Cr_key) := key in
  let '(_, Cb_p, Cr_p) := p in
  chroma_distance (IZR Cb_p) (IZR Cr_p) (IZR Cb_key) (IZR Cr_key).

(** The opacity of a pixel: line 62 on one pixel. *)
Definition alpha_of (key : ycbcr) (tol : R * R) (p : ycbcr) : R :=
  255 * ramp (pixel_distance key p) (fst tol) (snd tol).

(** A pixel of bytes. *)
Definition byte_ycbcr (c : ycbcr) : Prop :=
  let '(y, cb, cr) := c in
  (0 <= y <= 255 /\ 0 <= cb <= 255 /\ 0 <= cr <= 255)%Z.

(** A frame the compositor can read: an array that [Image.fromarray]
    handles, with a pixel at (1, 1) when the key colour is to be sampled
    there, and with a pixel at all otherwise. *)
Definition readable (frame : ndarray) : bool :=
  ((nchan frame =? 2) || (nchan frame =? 3) || (nchan frame =? 4))%nat.

Definition accepts (frame : ndarray) (keyColor : option ycbcr) : bool :=
  readable frame &&
  match keyColor with
  | None => (2 <=? ncols frame)%nat && (2 <=? nrows frame)%nat
  | Some _ => (1 <=? ncols frame)%nat && (1 <=? nrows frame)%nat
  end.

(** Line 62 on one pixel, for any arithmetic: the classifier applied to the
    chrominance of the pixel [p] against the key [key]. *)
Definition classify {A : Type} `{PyNum A} (key : ycbcr) (tol : A * A)
    (p : ycbcr) : result A :=
  let '(_, Cb_key, Cr_key) := key in
  let '(tola, tolb) := tol in
  let '(_, Cb_p, Cr_p) := p in
  colorclose (of_Z Cb_p) (of_Z Cr_p) (of_Z Cb_key) (of_Z Cr_key) tola tolb.

(** The tolerance in force: the default when the caller gives none. *)
Definition tolerance_or_default {A : Type} `{PyNum A} (tol : option (A * A))
  : A * A :=
  match tol with None => (of_Z 30, of_Z 120) | Some t => t end.

(** A pixel of four bytes. *)
Definition byte_rgba (p : rgba) : Prop :=
  let '(r, g, b, a) := p in
  (0 <= r <= 255 /\ 0 <= g <= 255 /\ 0 <= b <= 255 /\ 0 <= a <= 255)%Z.

(** Channel by channel, [q] is not above [p]. *)
Definition rgba_le (q p : rgba) : Prop :=
  let '(r, g, b, a) := p in
  let '(r', g', b', a') := q in
  (r' <= r /\ g' <= g /\ b' <= b /\ a' <= a)%Z.


(** ** Tables for binary64 *)

(** The values of a byte. *)
Definition byte_values : list Z := map Z.of_nat (seq 0 256).

(** Lines 24-30: the opacity from the distance [temp]. *)
Definition opacity_of_distance {A : Type} `{PyNum A} (temp tola tolb : A)
  : result A :=
  z <- (if ltb temp tola then Ok (of_Z 0)
        else if ltb temp tolb then py_div (sub temp tola) (sub tolb tola)
        else Ok (of_Z 1)) ;;
  Ok (mul (of_Z 255) z).

(** The classifier with the default tolerances from the squared distance
    [n], an integer. *)
Definition opacity_of_square {A : Type} `{PyNum A} (n : Z) : result A :=
  temp <- py_sqrt (of_Z n) ;;
  opacity_of_distance temp (of_Z 30) (of_Z 120).

(** Whether the byte [m] is the integer part of [255 - a], where [a] is the
    opacity at the squared distance [n] with the default tolerances, on
    real numbers: [a = 255 * (sqrt n - 30) / 90] between the thresholds, so
    [m <= 255 - a < m + 1] reads [2034 - 6 m < 17 sqrt n <= 2040 - 6 m]. *)
Definition inverted_byte_at (n m : Z) : bool :=
  (if n <? 900 then m =? 255
   else if 14400 <=? n then m =? 0
   else (0 <=? m) && (m <=? 255)
        && ((2034 - 6 * m) * (2034 - 6 * m) <? 289 * n)
        && (289 * n <=? (2040 - 6 * m) * (2040 - 6 * m)))%Z.

(** One row of the table: in binary64 the classifier returns at the
    squared distance [n], with an opacity between 0 and 255 whose inverted
    byte is the one of the real opacity. *)
Definition binary64_row (n : Z) : bool :=
  match opacity_of_square (A := float) n with
  | inr a =>
      PrimFloat.leb (of_Z 0) a && PrimFloat.leb a (of_Z 255)
      && inverted_byte_at n (invert_byte a)
  | inl _ => false
  end.

(** ** The distance and the opacity in binary64 *)

(** Line 23: the distance [temp], as the interpreter computes it. *)
Definition chroma_temp {A : Type} `{PyNum A} (Cb_p Cr_p Cb_key Cr_key : A)
  : result A :=
  dCb <- sq (sub Cb_key Cb_p) ;;
  dCr <- sq (sub Cr_key Cr_p) ;;
  py_sqrt (add dCb dCr).

(** Line 23 on the chrominances of a pixel and of the key, as the compositor
    passes them on line 62. *)
Definition pixel_temp {A : Type} `{PyNum A} (key p : ycbcr) : result A :=
  let '(_, Cb_key, Cr_key) := key in
  let '(_, Cb_p, Cr_p) := p in
  chroma_temp (of_Z Cb_p) (of_Z Cr_p) (of_Z Cb_key) (of_Z Cr_key).

(** The square of the distance of two chrominances of integers. *)
Definition squared_distance (Cb_p Cr_p Cb_key Cr_key : Z) : Z :=
  ((Cb_key - Cb_p) * (Cb_key - Cb_p) + (Cr_key - Cr_p) * (Cr_key - Cr_p))%Z.

(** A key colour of bytes, when one is given: what [getpixel] returns, and
    what [Image.new] stores unchanged. *)
Definition key_bytes (key : option ycbcr) : Prop :=
  match key with None => True | Some k => byte_ycbcr k end.

(** The number that a finite binary64 value stands for.  NaN and the
    infinities stand for no number; the properties below use the value of
    floats between 0 and 255 only. *)
Definition SF2R (x : spec_float) : R :=
  match x with
  | S754_finite s m e =>
      let v := (if (0 <=? e)%Z then IZR (Zpos m * 2 ^ e)
                else IZR (Zpos m) / IZR (2 ^ (- e)))%R in
      if s then (- v)%R else v
  | _ => 0%R
  end.

Definition float_value (x : float) : R := SF2R (Prim2SF x).

(** The opacity in binary64 at the squared distance [n], with the default
    tolerances. *)
Definition opacity_binary64 (n : Z) : float :=
  match opacity_of_square (A := float) n with
  | inr a => a
  | inl _ => nan
  end.

(** Rows of the tables over the squared distances of byte chrominances, in
    binary64 and with the default tolerances.  The opacity [a] is a
    fraction [m / 2 ^ E]; the real opacity between the thresholds is
    [17 * (sqrt n - 30) / 6]. *)

(** The distance is computed without an error. *)
Definition temp_row (n : Z) : bool :=
  match py_sqrt (A := float) (of_Z n) with
  | inr t => PrimFloat.Leibniz.eqb t (PrimFloat.sqrt (of_Z n))
  | inl _ => false
  end.

(** The regions are those of the real distance, and the opacity is exactly
    0 below the lower threshold and exactly 255 from the upper one on. *)
Definition region_row (n : Z) : bool :=
  let t := PrimFloat.sqrt (of_Z n) in
  Bool.eqb (PrimFloat.ltb t (of_Z 30)) (n <? 900)%Z
  && Bool.eqb (PrimFloat.ltb t (of_Z 120)) (n <? 14400)%Z
  && (if (n <? 900)%Z then PrimFloat.Leibniz.eqb (opacity_binary64 n) (of_Z 0)
      else if (14400 <=? n)%Z
           then PrimFloat.Leibniz.eqb (opacity_binary64 n) (of_Z 255)
           else PrimFloat.Leibniz.eqb (opacity_binary64 n)
                  (mul (of_Z 255)
                       (quot (sub t (of_Z 30)) (sub (of_Z 120) (of_Z 30))))).

(** Between the thresholds the opacity is within [2 ^ -44] of the real
    one: [|6 m + 510 * 2^E - 17 * 2^E * sqrt n| <= 6 * 2^(E - 44)]. *)
Definition accuracy_row (n : Z) : bool :=
  if ((n <? 900) || (14400 <=? n))%Z then true
  else
    match Prim2SF (opacity_binary64 n) with
    | S754_zero _ => (n =? 900)%Z
    | S754_finite false m e =>
        let P := (2 ^ (- e))%Z in
        let Q := (2 ^ (- e - 44))%Z in
        let c := (6 * Zpos m + 510 * P)%Z in
        let d := (6 * Q)%Z in
        (e <? 0)%Z && (44 <=? - e)%Z
        && ((c - d <=? 0) || ((c - d) * (c - d) <=? 289 * (P * P) * n))%Z
        && (289 * (P * P) * n <=? (c + d) * (c + d))%Z
    | _ => false
    end.

(** The byte [mb] of the inverted mask is the integer part of 255 minus
    the opacity: [mb * 2^E <= 255 * 2^E - m < (mb + 1) * 2^E]. *)
Definition floor_row (n : Z) : bool :=
  let a := opacity_binary64 n in
  let mb := invert_byte a in
  PrimFloat.leb (of_Z 0) a && PrimFloat.leb a (of_Z 255)
  && (0 <=? mb)%Z && (mb <=? 255)%Z
  && match Prim2SF a with
     | S754_zero _ => (mb =? 255)%Z
     | S754_finite false m e =>
         let P := (2 ^ (- e))%Z in
         (e <? 0)%Z && (mb * P <=? 255 * P - Zpos m)%Z
         && (255 * P - Zpos m <? (mb + 1) * P)%Z
     | _ => false
     end.

(** The opacity does not decrease from a squared distance to the next. *)
Definition chain_row (n : Z) : bool :=
  PrimFloat.leb (opacity_binary64 n) (opacity_binary64 n)
  && PrimFloat.leb (opacity_binary64 n) (opacity_binary64 (n + 1)).

(** ** The order of binary64 *)

(** The rank of a number in the order of [SFcompare]: its class (negative
    infinity, negative, zero, positive, positive infinity), then its
    exponent and its mantissa.  A NaN has none. *)
Definition SFrank (x : spec_float) : option (Z * Z * Z) :=
  match x with
  | S754_nan => None
  | S754_infinity true => Some (-2, 0, 0)%Z
  | S754_finite true m e => Some (-1, - e, - Zpos m)%Z
  | S754_zero _ => Some (0, 0, 0)%Z
  | S754_finite false m e => Some (1, e, Zpos m)%Z
  | S754_infinity false => Some (2, 0, 0)%Z
  end.

Definition lex_compare (a b : Z * Z * Z) : comparison :=
  let '(a1, a2, a3) := a in
  let '(b1, b2, b3) := b in
  match (a1 ?= b1)%Z with
  | Eq => match (a2 ?= b2)%Z with
          | Eq => (a3 ?= b3)%Z
          | c => c
          end
  | c => c
  end.


(** ** File names *)

Section FileNames.

Import Stdlib.Strings.Ascii Stdlib.Strings.String.
Local Open Scope string_scope.

(** [str(idx)] of a non-negative int: its decimal digits. *)
Definition str_of_nat (idx : nat) : string :=
  DecimalString.NilEmpty.string_of_uint (Nat.to_uint idx).

Definition starts_with_sep (b : string) : bool :=
  match b with
  | String c _ => Ascii.eqb c "/"
  | EmptyString => false
  end.

Definition ends_with_sep (a : string) : bool :=
  match get (length a - 1) a with
  | Some c => Ascii.eqb c "/"
  | None => false
  end.

(** [os.path.join(a, b)] where the separator is the slash (posixpath). *)
Definition path_join (a b : string) : string :=
  if starts_with_sep b then b
  else if (a =? "") || ends_with_sep a then a ++ b
  else a ++ "/" ++ b.

(** Line 107: [os.path.join(save_to_directory, f'output_{idx}.png')]. *)
Definition outfile (save_to_directory : string) (idx : nat) : string :=
  path_join save_to_directory ("output_" ++ str_of_nat idx ++ ".png").

End FileNames.

(** * Properties *)

Unset Implicit Arguments.

(** ** The classifier on real numbers *)

(** The cases of a lexicographic comparison of integers. *)
Ltac lex_cases :=
  repeat match goal with
         | |- context [(?a ?= ?b)%Z] => destruct (Z.compare_spec a b)
         | H : context [(?a ?= ?b)%Z] |- _ => destruct (Z.compare_spec a b)
         end;
  try lia; try congruence.

Section ClassifierR.

Local Open Scope R_scope.

Lemma Rltb_lt (x y : R) : Rltb x y = true <-> x < y.
Proof. unfold Rltb; destruct (Rlt_dec x y); split; congruence || tauto. Qed.

Lemma Rltb_ge (x y : R) : Rltb x y = false <-> y <= x.
Proof.
  unfold Rltb; destruct (Rlt_dec x y); split; intro; try congruence; lra.
Qed.

Lemma Reqb_neq (x y : R) : x <> y -> Reqb x y = false.
Proof. unfold Reqb; destruct (Req_dec_T x y); tauto. Qed.

(** No square overflows on real numbers. *)
Lemma sq_R (x : R) : sq x = Ok (x * x).
Proof. reflexivity. Qed.

Lemma py_sqrt_sum_squares (a b : R) :
  py_sqrt (a * a + b * b) = Ok (sqrt (a * a + b * b)).
Proof.
  unfold py_sqrt; cbn.
  assert (Hge : 0 <= a * a + b * b) by nra.
  apply Rltb_ge in Hge. rewrite Hge. reflexivity.
Qed.

Lemma colorclose_ramp_eq Cb_p Cr_p Cb_key Cr_key tola tolb :
  colorclose Cb_p Cr_p Cb_key Cr_key tola tolb
  = Ok (255 * ramp (chroma_distance Cb_p Cr_p Cb_key Cr_key) tola tolb).
Proof.
  unfold colorclose. rewrite !sq_R. cbn [bind Ok add sub R_PyNum].
  rewrite py_sqrt_sum_squares. cbn [bind Ok].
  fold (chroma_distance Cb_p Cr_p Cb_key Cr_key).
  set (d := chroma_distance Cb_p Cr_p Cb_key Cr_key).
  unfold ramp. cbn [ltb of_Z mul R_PyNum]. unfold Rltb.
  destruct (Rlt_dec d tola) as [Ha | Ha]; [reflexivity |].
  destruct (Rlt_dec d tolb) as [Hb | Hb]; [| reflexivity].
  unfold py_div. cbn [eqb of_Z sub quot R_PyNum].
  rewrite Reqb_neq by lra. reflexivity.
Qed.

End ClassifierR.

(** The same call, the way the interpreter computes it. *)
Example colorclose_binary64_run :
  colorclose (A := float)
    (of_Z 128) (of_Z 159) (of_Z 128) (of_Z 128) (of_Z 30) (of_Z 120)
  = Ok 2.8333333333333335%float.
Proof. vm_compute. reflexivity. Qed.

(** ** Bytes, masks and layers *)

Section Bytes.

Local Open Scope Z_scope.

Lemma clip8_range (v : Z) : 0 <= clip8 v <= 255.
Proof. unfold clip8; lia. Qed.


Lemma blend8_div (m a b : Z) :
  blend8 m a b
  = ((a * (255 - m) + b * m + 128) / 256 + (a * (255 - m) + b * m + 128)) / 256.
Proof. unfold blend8. rewrite !Z.shiftr_div_pow2 by lia. reflexivity. Qed.

(** DIV255 is exact on the multiples of 255 below 255 * 256. *)
Lemma blend8_transparent_opaque (m : Z) :
  0 <= m <= 255 -> blend8 m 0 255 = m.
Proof.
  intros Hm. rewrite blend8_div.
  replace (0 * (255 - m) + 255 * m + 128) with (255 * m + 128) by ring.
  symmetry. apply Z.div_unique with (r := ((255 * m + 128) / 256 + 128 - m)).
  - left. pose proof (Z.div_mod (255 * m + 128) 256 ltac:(lia)).
    pose proof (Z.mod_pos_bound (255 * m + 128) 256 ltac:(lia)). lia.
  - lia.
Qed.


Lemma chop_subtract_opaque (m : Z) :
  0 <= m <= 255 -> chop_subtract 255 m = 255 - m.
Proof. intros Hm. unfold chop_subtract, clip8. lia. Qed.

End Bytes.

Section Quantisation.

Local Open Scope R_scope.

Lemma Rtrunc_floor (x : R) : 0 <= x -> Rtrunc x = Int_part x.
Proof. intros Hx. unfold Rtrunc. destruct (Rle_dec 0 x); tauto. Qed.

Lemma Int_part_bounds (x : R) : IZR (Int_part x) <= x < IZR (Int_part x) + 1.
Proof. pose proof (base_Int_part x). lra. Qed.

Lemma Int_part_range (x : R) (lo hi : Z) :
  IZR lo <= x -> x < IZR hi + 1 -> (lo <= Int_part x <= hi)%Z.
Proof.
  intros Hlo Hhi. pose proof (Int_part_bounds x) as [Hl Hu]. split.
  - apply Z.lt_succ_r. apply lt_IZR. rewrite succ_IZR. lra.
  - apply Z.lt_succ_r. apply lt_IZR. rewrite succ_IZR. lra.
Qed.

(** A float in [0, 256) is cast to its floor. *)
Lemma uint8_floor (x : R) : 0 <= x < 256 -> uint8 x = Int_part x.
Proof.
  intros [Hlo Hhi]. unfold uint8. cbn [trunc R_PyNum].
  rewrite Rtrunc_floor by exact Hlo.
  apply Z.mod_small.
  pose proof (Int_part_range x 0 255 Hlo ltac:(lra)). lia.
Qed.

Lemma invert_byte_floor (a : R) :
  0 <= a <= 255 -> invert_byte a = Int_part (255 - a).
Proof.
  intros Ha. unfold invert_byte. cbn [sub mul quot of_Z R_PyNum].
  replace (255 - 255 * (a / 255)) with (255 - a) by (field).
  apply uint8_floor. lra.
Qed.

Lemma invert_byte_whole (k : Z) :
  (0 <= k <= 255)%Z -> invert_byte (IZR k) = (255 - k)%Z.
Proof.
  intros Hk.
  assert (0 <= IZR k <= 255) by (split; apply IZR_le; lia).
  rewrite invert_byte_floor by assumption.
  symmetry. apply Int_part_spec. rewrite minus_IZR. lra.
Qed.

(** In binary64 too, line 67 is exact on the whole values of a byte, and
    so is the cast. *)
Example invert_byte_whole_binary64 :
  forallb (fun k => (invert_byte (A := float) (of_Z k) =? 255 - k)%Z
                    && (uint8 (A := float) (of_Z k) =? k)%Z)
          (map Z.of_nat (seq 0 256))
  = true.
Proof. vm_compute. reflexivity. Qed.

End Quantisation.

(** ** Lists *)

Section Lists.

Context {X Y : Type}.

Lemma combine_repeat_l (a : X) (l : list Y) (n : nat) :
  length l = n -> combine (repeat a n) l = map (fun y => (a, y)) l.
Proof.
  intros <-. induction l as [| y l IH]; cbn; [reflexivity |].
  now rewrite IH.
Qed.

Lemma combine_repeat (a : X) (b : Y) (n : nat) :
  combine (repeat a n) (repeat b n) = repeat (a, b) n.
Proof. induction n as [| n IH]; cbn; [reflexivity | now rewrite IH]. Qed.

Lemma combine_map_map {W : Type} (f : W -> X) (g : W -> Y) (l : list W) :
  combine (map f l) (map g l) = map (fun w => (f w, g w)) l.
Proof. induction l as [| w l IH]; cbn; [reflexivity | now rewrite IH]. Qed.

Lemma map_repeat_eq (f : X -> Y) (a : X) (n : nat) :
  map f (repeat a n) = repeat (f a) n.
Proof. induction n as [| n IH]; cbn; [reflexivity | now rewrite IH]. Qed.

Lemma mapM_total (f : X -> result Y) (g : X -> Y) (l : list X) :
  (forall x, f x = Ok (g x)) -> mapM f l = Ok (map g l).
Proof.
  intros Hf. induction l as [| x l IH]; cbn; [reflexivity |].
  rewrite Hf, IH. reflexivity.
Qed.

End Lists.

(** ** The compositor on real numbers *)

Section CompositorR.

Variable convert_YCbCr : list Z -> ycbcr.
Variable convert_RGB : ycbcr -> Z * Z * Z.

Local Open Scope R_scope.

Local Notation "'locals_of'" :=
  (remove_green_screen_locals (A := R) convert_YCbCr convert_RGB).
Local Notation "'key_rgba' k" :=
  (convert_RGBA_pixel convert_RGB (clip8_ycbcr k)) (at level 10).

Lemma classify_alpha_of (key : ycbcr) (tol : R * R) (p : ycbcr) :
  (let '(_, Cb_key, Cr_key) := key in
   let '(tola, tolb) := tol in
   let '(_, Cb_p, Cr_p) := p in
   colorclose (of_Z Cb_p) (of_Z Cr_p) (of_Z Cb_key) (of_Z Cr_key) tola tolb)
  = Ok (alpha_of key tol p).
Proof.
  destruct key as [[Yk Cbk] Crk], tol as [tola tolb], p as [[Yp Cbp] Crp].
  cbn [of_Z R_PyNum]. rewrite colorclose_ramp_eq. reflexivity.
Qed.

Lemma fromarray_readable (frame : ndarray) :
  readable frame = true ->
  fromarray_YCbCr convert_YCbCr frame
  = Ok (Img (ncols frame) (nrows frame)
            (map (fun i => clip8_ycbcr (convert_YCbCr (pixel_at frame i)))
                 (seq 0 (nrows frame * ncols frame)))).
Proof. unfold fromarray_YCbCr, readable. intros ->. reflexivity. Qed.

Lemma getpixel_inside {P : Type} (im : image P) (x y : nat) :
  length (getdata im) = (height im * width im)%nat ->
  (x < width im)%nat -> (y < height im)%nat ->
  exists p, getpixel im (x, y) = Ok p /\
            nth_error (getdata im) (y * width im + x) = Some p.
Proof.
  intros Hlen Hx Hy. unfold getpixel.
  apply Nat.ltb_lt in Hx as Hxb. apply Nat.ltb_lt in Hy as Hyb.
  rewrite Hxb, Hyb. cbn [andb].
  destruct (nth_error (getdata im) (y * width im + x)) as [p |] eqn:Hnth.
  - exists p. split; reflexivity.
  - apply nth_error_None in Hnth. nia.
Qed.

Lemma nonempty_ok {X : Type} (l : list X) :
  l <> [] ->
  match l with [] => Raise IndexError | x :: l' => Ok (x :: l') end = Ok l.
Proof. destruct l; [congruence | reflexivity]. Qed.

(** What the compositor computes on a frame it accepts, local by local. *)
Lemma locals_accepted (frame : ndarray) (index : nat)
    (key : option ycbcr) (tol : option (R * R)) :
  accepts frame key = true ->
  exists l,
    locals_of frame index key tol = Ok l /\
    fromarray_YCbCr convert_YCbCr frame = Ok (inDataFG l) /\
    match key with
    | None => getpixel (inDataFG l) (1, 1)%nat = Ok (keyColor l)
    | Some k => keyColor l = k
    end /\
    tolerance l = match tol with None => (30, 120) | Some t => t end /\
    getdata (inDataFG l) <> [] /\
    alphaMask l = map (alpha_of (keyColor l) (tolerance l)) (getdata (inDataFG l)) /\
    imMask l = Img (ncols frame) (nrows frame) (map uint8 (alphaMask l)) /\
    invertMask l
    = Img (ncols frame) (nrows frame) (map invert_byte (alphaMask l)) /\
    allgreen l
    = Image_new (ncols frame, nrows frame) (clip8_ycbcr (keyColor l)) /\
    colorMask l
    = Img (ncols frame) (nrows frame)
          (map (fun m => blend_rgba m (0, 0, 0, 0)%Z (key_rgba (keyColor l)))
               (getdata (invertMask l))) /\
    cleaned l
    = Img (ncols frame) (nrows frame)
          (map (fun p =>
                  subtract_rgba
                    (convert_RGBA_pixel convert_RGB p)
                    (blend_rgba (invert_byte (alpha_of (keyColor l) (tolerance l) p))
                                (0, 0, 0, 0)%Z (key_rgba (keyColor l))))
               (getdata (inDataFG l))).
Proof.
  intros Hacc. unfold accepts in Hacc.
  apply andb_true_iff in Hacc as [Hread Hsize].
  unfold remove_green_screen_locals.
  rewrite (fromarray_readable frame Hread). cbn [bind Ok].
  set (data := map (fun i => clip8_ycbcr (convert_YCbCr (pixel_at frame i)))
                   (seq 0 (nrows frame * ncols frame))).
  set (img := Img (ncols frame) (nrows frame) data).
  assert (Hlen : length data = (nrows frame * ncols frame)%nat).
  { unfold data. now rewrite length_map, length_seq. }
  assert (Hkey : exists k,
             match key with
             | None => getpixel img (1, 1)%nat
             | Some k => Ok k
             end = Ok k /\
             match key with
             | None => getpixel img (1, 1)%nat = Ok k
             | Some k' => k = k'
             end).
  { destruct key as [k |].
    - exists k. split; reflexivity.
    - apply andb_true_iff in Hsize as [Hw Hh].
      apply Nat.leb_le in Hw, Hh.
      destruct (getpixel_inside img 1 1) as [p [Hp _]]; cbn; try lia.
      exists p. split; exact Hp. }
  destruct Hkey as [k [Hk Hk']]. rewrite Hk. cbn [bind Ok].
  set (t := match tol with None => (of_Z 30, of_Z 120) | Some t => t end).
  assert (Hne : data <> []).
  { intros Hnil. rewrite Hnil in Hlen. cbn in Hlen.
    destruct key; apply andb_true_iff in Hsize as [Hw Hh];
      apply Nat.leb_le in Hw, Hh; nia. }
  destruct k as [[Y_key Cb_key] Cr_key] eqn:Ek.
  destruct t as [tola tolb] eqn:Et.
  cbn [size width height getdata img].
  rewrite (nonempty_ok data Hne). cbn [bind Ok].
  rewrite (mapM_total _ (alpha_of (Y_key, Cb_key, Cr_key) (tola, tolb)))
    by (intros p; apply (classify_alpha_of (Y_key, Cb_key, Cr_key) (tola, tolb))).
  cbn [bind Ok].
  unfold paste, same_size, Image_new.
  cbn [width height getdata fst snd convert_RGBA].
  rewrite !Nat.eqb_refl. cbn [andb bind Ok].
  eexists. split; [reflexivity |].
  cbn [inDataFG keyColor tolerance alphaMask imMask invertMask allgreen
       colorMask cleaned getdata width height].
  split; [reflexivity |].
  split; [destruct key; exact Hk' |].
  split; [symmetry; exact Et |].
  split; [exact Hne |].
  split; [reflexivity |].
  split; [reflexivity |].
  split; [reflexivity |].
  split; [reflexivity |].
  rewrite map_repeat_eq, combine_repeat.
  rewrite combine_repeat_l
    by (rewrite !length_map, Hlen; apply Nat.mul_comm).
  rewrite (map_map (fun y => (_, y))).
  cbn [fst snd].
  split; [reflexivity |].
  unfold subtract. cbn [width height getdata]. f_equal.
  unfold convert_RGBA. cbn [getdata img]. fold data.
  rewrite !map_map, combine_map_map, map_map. reflexivity.
Qed.

Lemma remove_green_screen_of_locals (frame : ndarray) (index : nat)
    (key : option ycbcr) (tol : option (R * R)) (l : locals) :
  locals_of frame index key tol = Ok l ->
  remove_green_screen convert_YCbCr convert_RGB frame index key tol
  = Ok (cleaned l).
Proof. intros Hl. unfold remove_green_screen. rewrite Hl. reflexivity. Qed.

(** *** Bytes of the decoded image *)

Lemma clip8_ycbcr_byte (c : ycbcr) : byte_ycbcr (clip8_ycbcr c).
Proof.
  destruct c as [[y cb] cr]. cbn.
  pose proof (clip8_range y); pose proof (clip8_range cb);
    pose proof (clip8_range cr). tauto.
Qed.


Lemma fromarray_bytes (frame : ndarray) (img : image ycbcr) :
  fromarray_YCbCr convert_YCbCr frame = Ok img ->
  Forall byte_ycbcr (getdata img) /\
  width img = ncols frame /\ height img = nrows frame /\
  length (getdata img) = (nrows frame * ncols frame)%nat.
Proof.
  unfold fromarray_YCbCr.
  destruct ((nchan frame =? 2)%nat || (nchan frame =? 3)%nat
            || (nchan frame =? 4)%nat); [| discriminate].
  intros [= <-]. cbn. repeat split.
  - apply Forall_map, Forall_forall. intros i _. apply clip8_ycbcr_byte.
  - now rewrite length_map, length_seq.
Qed.

Lemma getpixel_In {P : Type} (im : image P) (xy : nat * nat) (p : P) :
  getpixel im xy = Ok p -> In p (getdata im).
Proof.
  unfold getpixel. destruct xy as [x y].
  destruct ((x <? width im)%nat && (y <? height im)%nat); [| discriminate].
  destruct (nth_error (getdata im) (y * width im + x)) as [q |] eqn:Hnth;
    [| discriminate].
  intros [= <-]. eapply nth_error_In; eassumption.
Qed.

(** *** The key colour everywhere *)

Lemma pixel_distance_self (c : ycbcr) : pixel_distance c c = 0.
Proof.
  destruct c as [[y cb] cr]. unfold pixel_distance, chroma_distance.
  replace ((IZR cb - IZR cb) * (IZR cb - IZR cb)
           + (IZR cr - IZR cr) * (IZR cr - IZR cr)) with 0 by ring.
  apply sqrt_0.
Qed.






(** *** The masks *)

Lemma Forall2_map_self {X Y : Type} (P : X -> Y -> Prop) (f : X -> Y)
    (l : list X) :
  Forall (fun x => P x (f x)) l -> Forall2 P l (map f l).
Proof. induction 1; cbn; constructor; assumption. Qed.

Lemma blend_rgba_alpha (m : Z) (p : ycbcr) :
  (0 <= m <= 255)%Z ->
  snd (blend_rgba m (0, 0, 0, 0)%Z (convert_RGBA_pixel convert_RGB p)) = m.
Proof.
  intros Hm. unfold convert_RGBA_pixel.
  destruct (convert_RGB p) as [[r g] b]. cbn [blend_rgba snd].
  apply blend8_transparent_opaque. exact Hm.
Qed.

Lemma subtract_rgba_alpha (p : ycbcr) (q : rgba) :
  (0 <= snd q <= 255)%Z ->
  snd (subtract_rgba (convert_RGBA_pixel convert_RGB p) q) = (255 - snd q)%Z.
Proof.
  intros Hq. unfold convert_RGBA_pixel.
  destruct (convert_RGB p) as [[r g] b], q as [[[r' g'] b'] a'].
  cbn [subtract_rgba snd] in *. apply chop_subtract_opaque. exact Hq.
Qed.

End CompositorR.

(** ** The batch driver, for any arithmetic *)

Section Driver.

Context {A : Type} `{PyNum A}.
Variable convert_YCbCr : list Z -> ycbcr.
Variable convert_RGB : ycbcr -> Z * Z * Z.

Local Notation "'compose'" :=
  (remove_green_screen (A := A) convert_YCbCr convert_RGB).
Local Notation "'loop'" :=
  (process_frames (A := A) convert_YCbCr convert_RGB).

(** The loop over a prefix and the rest. *)
Lemma process_frames_app (flag : bool) (pre rest : list ndarray) :
  forall (idx : nat) (w : world),
    loop flag idx (pre ++ rest) w
    = match loop flag idx pre w with
      | (w', inr _) => loop flag (idx + length pre) rest w'
      | (w', inl e) => (w', inl e)
      end.
Proof.
  induction pre as [| frame pre IH]; intros idx w; cbn [app process_frames length].
  - rewrite Nat.add_0_r. reflexivity.
  - replace (idx + S (length pre))%nat with (S idx + length pre)%nat by lia.
    destruct (selected flag idx).
    + destruct (compose frame idx None None) as [e | img]; [reflexivity |].
      apply IH.
    + apply IH.
Qed.

(** The loop over frames that the compositor accepts: it ends normally,
    having saved and printed the selected indices in order, each image
    being the compositor's output for the frame of that index. *)
Lemma process_frames_ok (flag : bool) (frames : list ndarray) :
  forall (idx : nat) (w : world),
    Forall (fun f => exists img, compose f 0%nat None None = Ok img) frames ->
    exists new,
      loop flag idx frames w
      = (World (saved w ++ new) (printed w ++ map fst new), Ok tt) /\
      map fst new = filter (selected flag) (seq idx (length frames)) /\
      Forall (fun s => (idx <= fst s)%nat /\
                       exists f, nth_error frames (fst s - idx) = Some f /\
                                 compose f (fst s) None None = Ok (snd s))
             new.
Proof.
  induction frames as [| frame rest IH]; intros idx w Hok.
  - exists []. cbn. rewrite !app_nil_r. destruct w. repeat split. constructor.
  - inversion Hok as [| f fs [img Himg] Hrest]; subst.
    cbn [process_frames length seq filter].
    destruct (selected flag idx) eqn:Hsel.
    + change (compose frame idx None None) with (compose frame 0%nat None None).
      rewrite Himg.
      destruct (IH (S idx) (World (saved w ++ [(idx, img)]) (printed w ++ [idx]))
                   Hrest) as (new & Hrun & Hidx & Hnew).
      exists ((idx, img) :: new). cbn [saved printed] in Hrun.
      rewrite <- !app_assoc in Hrun. cbn [app] in Hrun.
      split; [exact Hrun |]. split; [cbn; now rewrite Hidx |].
      constructor.
      * cbn [fst snd]. split; [lia |]. exists frame.
        rewrite Nat.sub_diag. split; [reflexivity | exact Himg].
      * eapply Forall_impl; [| exact Hnew]. cbv beta.
        intros s [Hle [f' [Hnth Hf']]]. split; [lia |]. exists f'.
        replace (fst s - idx)%nat with (S (fst s - S idx)) by lia.
        split; assumption.
    + destruct (IH (S idx) w Hrest) as (new & Hrun & Hidx & Hnew).
      exists new. split; [exact Hrun |]. split; [exact Hidx |].
      eapply Forall_impl; [| exact Hnew]. cbv beta.
      intros s [Hle [f' [Hnth Hf']]]. split; [lia |]. exists f'.
      replace (fst s - idx)%nat with (S (fst s - S idx)) by lia.
      split; assumption.
Qed.

(** The loop up to a selected frame on which the compositor raises: the
    exception ends the call; what was saved and printed are the selected
    indices before that frame, and no frame after it is looked at. *)
Lemma process_frames_raise (flag : bool) (pre post : list ndarray)
    (bad : ndarray) (e : exc) (idx : nat) (w : world) :
  Forall (fun f => exists img, compose f 0%nat None None = Ok img) pre ->
  selected flag (idx + length pre) = true ->
  compose bad 0%nat None None = Raise e ->
  exists new,
    loop flag idx (pre ++ bad :: post) w
    = (World (saved w ++ new) (printed w ++ map fst new), Raise e) /\
    map fst new = filter (selected flag) (seq idx (length pre)).
Proof.
  intros Hpre Hsel Hbad.
  destruct (process_frames_ok flag pre idx w Hpre) as (new & Hrun & Hidx & _).
  exists new. split; [| exact Hidx].
  rewrite process_frames_app, Hrun. cbn [process_frames].
  rewrite Hsel.
  change (compose bad (idx + length pre)%nat None None)
    with (compose bad 0%nat None None).
  rewrite Hbad. reflexivity.
Qed.

(** A frame that is not accepted makes the compositor raise: TypeError
    when [Image.fromarray] cannot handle the array, IndexError when the
    image has no pixel (1, 1). *)
Lemma rejected_frame_raises (frame : ndarray) (index : nat) :
  accepts frame None = false ->
  exists e, compose frame index None None = Raise e.
Proof.
  unfold accepts, readable, remove_green_screen, remove_green_screen_locals,
    fromarray_YCbCr.
  destruct ((nchan frame =? 2)%nat || (nchan frame =? 3)%nat
            || (nchan frame =? 4)%nat); cbn [andb bind Ok Raise].
  - intros Hsmall. unfold getpixel. cbn [width height].
    change ((1 <? ncols frame)%nat && (1 <? nrows frame)%nat)
      with ((2 <=? ncols frame)%nat && (2 <=? nrows frame)%nat).
    rewrite Hsmall. exists IndexError. reflexivity.
  - intros _. exists TypeError. reflexivity.
Qed.

End Driver.

(** ** The batch driver on real numbers *)

Section BatchR.

Variable convert_YCbCr : list Z -> ycbcr.
Variable convert_RGB : ycbcr -> Z * Z * Z.

Local Notation "'compose'" :=
  (remove_green_screen (A := R) convert_YCbCr convert_RGB).
Local Notation "'video'" :=
  (remove_green_screen_from_video (A := R) convert_YCbCr convert_RGB).

Lemma accepted_frame_composes (frame : ndarray) :
  accepts frame None = true ->
  exists img, compose frame 0%nat None None = Ok img.
Proof.
  intros Hacc.
  destruct (locals_accepted convert_YCbCr convert_RGB frame 0 None None Hacc)
    as (l & Hl & _).
  exists (cleaned l). apply remove_green_screen_of_locals. exact Hl.
Qed.

Lemma accepted_frames_compose (frames : list ndarray) :
  Forall (fun f => accepts f None = true) frames ->
  Forall (fun f => exists img, compose f 0%nat None None = Ok img) frames.
Proof.
  intros Hacc. eapply Forall_impl; [| exact Hacc].
  intros f. apply accepted_frame_composes.
Qed.

Lemma filter_selected_all (l : list nat) : filter (selected true) l = l.
Proof. induction l as [| i l IH]; cbn; [reflexivity | now rewrite IH]. Qed.

Lemma video_ok (flag : bool) (frames : list ndarray) :
  Forall (fun f => accepts f None = true) frames ->
  exists w,
    video frames (Some flag) = (w, Ok tt) /\
    map fst (saved w) = filter (selected flag) (seq 0 (length frames)) /\
    printed w = map fst (saved w) /\
    Forall (fun s => exists f, nth_error frames (fst s) = Some f /\
                               compose f (fst s) None None = Ok (snd s))
           (saved w).
Proof.
  intros Hacc. apply accepted_frames_compose in Hacc.
  destruct (process_frames_ok (A := R) convert_YCbCr convert_RGB flag frames
              0 (World [] []) Hacc) as (new & Hrun & Hidx & Hnew).
  exists (World new (map fst new)). cbn [saved printed app] in *.
  repeat split; try assumption.
  eapply Forall_impl; [| exact Hnew]. cbv beta.
  intros s [_ [f [Hnth Hf]]]. exists f. rewrite Nat.sub_0_r in Hnth.
  split; assumption.
Qed.

(** C7.  With [process_all_frames] false the driver processes and saves
    exactly the frames whose index is a multiple of 5, for 12 frames the
    indices 0, 5 and 10; with [process_all_frames] true, which is the
    default, it processes every frame. *)
Theorem every_fifth_frame (frames : list ndarray) :
  Forall (fun f => accepts f None = true) frames ->
  (exists w,
     video frames (Some false) = (w, Ok tt) /\
     map fst (saved w)
     = filter (fun idx => (idx mod 5 =? 0)%nat) (seq 0 (length frames)) /\
     printed w = map fst (saved w) /\
     Forall (fun s => exists f, nth_error frames (fst s) = Some f /\
                                compose f (fst s) None None = Ok (snd s))
            (saved w) /\
     (length frames = 12%nat -> map fst (saved w) = [0; 5; 10]%nat)) /\
  (exists w,
     video frames (Some true) = (w, Ok tt) /\
     map fst (saved w) = seq 0 (length frames) /\
     printed w = map fst (saved w) /\
     Forall (fun s => exists f, nth_error frames (fst s) = Some f /\
                                compose f (fst s) None None = Ok (snd s))
            (saved w)) /\
  video frames None = video frames (Some true).
Proof.
  intros Hacc. split; [| split].
  - destruct (video_ok false frames Hacc) as (w & Hrun & Hidx & Hpr & Hsaved).
    exists w. repeat split; try assumption.
    intros Hlen. rewrite Hidx, Hlen. reflexivity.
  - destruct (video_ok true frames Hacc) as (w & Hrun & Hidx & Hpr & Hsaved).
    exists w. repeat split; try assumption.
    rewrite Hidx. apply filter_selected_all.
  - reflexivity.
Qed.

(** C8, as the code has it.  No exception is caught: when a selected
    frame is one the compositor cannot read, its exception ends the whole
    call.  The frames selected before it have been saved and printed;
    nothing is printed for the frame itself, and no frame after it is
    processed. *)
Theorem malformed_frame_ends_batch (flag : option bool)
    (pre post : list ndarray) (bad : ndarray) :
  Forall (fun f => accepts f None = true) pre ->
  accepts bad None = false ->
  selected (match flag with None => true | Some b => b end) (length pre)
  = true ->
  exists w e,
    video (pre ++ bad :: post) flag = (w, Raise e) /\
    compose bad (length pre) None None = Raise e /\
    map fst (saved w)
    = filter (selected (match flag with None => true | Some b => b end))
             (seq 0 (length pre)) /\
    printed w = map fst (saved w).
Proof.
  intros Hpre Hbad Hsel.
  destruct (rejected_frame_raises (A := R) convert_YCbCr convert_RGB bad 0 Hbad)
    as [e He].
  apply accepted_frames_compose in Hpre.
  destruct (process_frames_raise (A := R) convert_YCbCr convert_RGB
              (match flag with None => true | Some b => b end)
              pre post bad e 0 (World [] []) Hpre Hsel He)
    as (new & Hrun & Hidx).
  exists (World new (map fst new)), e. cbn [saved printed app] in *.
  repeat split; assumption.
Qed.

End BatchR.

(** ** Concrete frames *)

Section Runs.

Local Open Scope R_scope.

Local Notation "'locals_R'" :=
  (remove_green_screen_locals (A := R) jfif_YCbCr jfif_RGB).
Local Notation "'locals_float'" :=
  (remove_green_screen_locals (A := float) jfif_YCbCr jfif_RGB).

Lemma black_frame_decoded :
  fromarray_YCbCr jfif_YCbCr black_frame
  = Ok (Img 2 2 (repeat (0, 128, 128)%Z 4)).
Proof. reflexivity. Qed.

Lemma black_frame_pixel_1_1 :
  getpixel (Img 2 2 (repeat (0, 128, 128)%Z 4)) (1, 1)%nat
  = Ok (0, 128, 128)%Z.
Proof. reflexivity. Qed.

(** A key at chroma distance 31 of black. *)
Lemma alpha_of_distance_31 :
  alpha_of (0, 128, 159)%Z (30, 120) (0, 128, 128)%Z = 17 / 6.
Proof.
  unfold alpha_of, pixel_distance, chroma_distance. cbn [fst snd].
  replace ((128 - 128) * (128 - 128) + (159 - 128) * (159 - 128))
    with (31 * 31) by ring.
  rewrite sqrt_square by lra. unfold ramp.
  destruct (Rlt_dec 31 30); [lra |].
  destruct (Rlt_dec 31 120); [| lra]. field.
Qed.

Lemma invert_byte_17_6 : invert_byte (17 / 6) = 252%Z.
Proof.
  rewrite invert_byte_floor by lra.
  symmetry. apply Int_part_spec. lra.
Qed.

Lemma uint8_17_6 : uint8 (17 / 6) = 2%Z.
Proof.
  rewrite uint8_floor by lra.
  symmetry. apply Int_part_spec. lra.
Qed.

(** The compositor on the black frame with the key (0, 128, 159) and the
    default tolerance: every pixel has opacity 17/6 = 2.8333... *)
Lemma black_frame_distance_31 :
  exists l,
    locals_R black_frame 0%nat (Some (0, 128, 159)%Z) None = Ok l /\
    alphaMask l = repeat (17 / 6) 4 /\
    getdata (imMask l) = repeat 2%Z 4 /\
    getdata (invertMask l) = repeat 252%Z 4 /\
    alpha_channel (colorMask l) = repeat 252%Z 4 /\
    alpha_channel (cleaned l) = repeat 3%Z 4.
Proof.
  destruct (locals_accepted jfif_YCbCr jfif_RGB black_frame 0
              (Some (0, 128, 159)%Z) None eq_refl)
    as (l & Hl & Hdec & Hk & Ht & _ & Halpha & Him & Hinv & _ & Hcm & Hcl).
  rewrite black_frame_decoded in Hdec. injection Hdec as Hdec.
  rewrite <- Hdec, Hk, Ht in Halpha, Hcl. cbn [getdata repeat map] in Halpha, Hcl.
  rewrite alpha_of_distance_31 in Halpha, Hcl.
  rewrite invert_byte_17_6 in Hcl.
  rewrite Hk in Hcm.
  exists l. split; [exact Hl |]. split; [exact Halpha |].
  split; [rewrite Him, Halpha; cbn [getdata map]; now rewrite uint8_17_6 |].
  assert (Hinv' : getdata (invertMask l) = repeat 252%Z 4).
  { rewrite Hinv, Halpha. cbn [getdata map]. now rewrite invert_byte_17_6. }
  split; [exact Hinv' |].
  split.
  - unfold alpha_channel. rewrite Hcm, Hinv'. reflexivity.
  - unfold alpha_channel. rewrite Hcl. reflexivity.
Qed.

Example black_frame_distance_31_binary64 :
  exists l,
    locals_float black_frame 0%nat (Some (0, 128, 159)%Z) None = Ok l /\
    alphaMask l = repeat 2.8333333333333335%float 4 /\
    getdata (imMask l) = repeat 2%Z 4 /\
    getdata (invertMask l) = repeat 252%Z 4 /\
    alpha_channel (colorMask l) = repeat 252%Z 4 /\
    alpha_channel (cleaned l) = repeat 3%Z 4.
Proof. eexists. split; [vm_compute; reflexivity |]. repeat split. Qed.

(** The compositor on the black frame with the key sampled at (1, 1) and
    the tolerance (0, 0): every pixel is at distance 0, which is not
    below 0, so every pixel gets opacity 255. *)
Lemma alpha_of_tolerance_0_0 :
  alpha_of (0, 128, 128)%Z (0, 0) (0, 128, 128)%Z = 255.
Proof.
  unfold alpha_of. rewrite pixel_distance_self. unfold ramp. cbn [fst snd].
  destruct (Rlt_dec 0 0); [lra | ring].
Qed.

Lemma black_frame_tolerance_0_0 :
  exists l,
    locals_R black_frame 0%nat None (Some (0, 0)) = Ok l /\
    keyColor l = (0, 128, 128)%Z /\
    alphaMask l = repeat 255 4 /\
    cleaned l = Img 2 2 (repeat (0, 0, 0, 255)%Z 4).
Proof.
  destruct (locals_accepted jfif_YCbCr jfif_RGB black_frame 0
              None (Some (0, 0)) eq_refl)
    as (l & Hl & Hdec & Hk & Ht & _ & Halpha & _ & _ & _ & _ & Hcl).
  rewrite black_frame_decoded in Hdec. injection Hdec as Hdec.
  rewrite <- Hdec in Hk.
  change (Ok (0, 128, 128)%Z = Ok (keyColor l)) in Hk.
  injection Hk as Hk.
  rewrite <- Hdec, <- Hk, Ht in Halpha, Hcl.
  cbn [getdata repeat map] in Halpha, Hcl.
  rewrite alpha_of_tolerance_0_0 in Halpha, Hcl.
  replace (invert_byte 255) with 0%Z in Hcl
    by (symmetry; apply (invert_byte_whole 255); lia).
  exists l. split; [exact Hl |]. split; [now symmetry |].
  split; [exact Halpha |]. rewrite Hcl. reflexivity.
Qed.

End Runs.

(** ** The claims on concrete frames *)

Section Instances.

Local Open Scope R_scope.

Local Notation "'locals_R'" :=
  (remove_green_screen_locals (A := R) jfif_YCbCr jfif_RGB).
Local Notation "'compose_R'" :=
  (remove_green_screen (A := R) jfif_YCbCr jfif_RGB).
Local Notation "'compose_float'" :=
  (remove_green_screen (A := float) jfif_YCbCr jfif_RGB).
Local Notation "'video_R'" :=
  (remove_green_screen_from_video (A := R) jfif_YCbCr jfif_RGB).
Local Notation "'video_float'" :=
  (remove_green_screen_from_video (A := float) jfif_YCbCr jfif_RGB).

(** C2 as stated fails: the tolerance (0, 0) is not rejected.  On the black
    frame the compositor returns an image, on real numbers and in
    binary64. *)
Lemma tolerance_0_0_returns_image :
  compose_R black_frame 0%nat None (Some (0, 0))
  = Ok (Img 2 2 (repeat (0, 0, 0, 255)%Z 4)) /\
  compose_float black_frame 0%nat None (Some (of_Z 0, of_Z 0))
  = Ok (Img 2 2 (repeat (0, 0, 0, 255)%Z 4)).
Proof.
  split.
  - destruct black_frame_tolerance_0_0 as (l & Hl & _ & _ & Hcl).
    rewrite <- Hcl. apply remove_green_screen_of_locals. exact Hl.
  - vm_compute. reflexivity.
Qed.


(** C5 as stated fails: at opacity 17/6 the inverted mask holds 252,
    neither 255 - 17/6 nor 255 minus the byte 2 of the alpha mask image. *)
Lemma invertMask_at_fractional_alpha :
  exists l,
    locals_R black_frame 0%nat (Some (0, 128, 159)%Z) None = Ok l /\
    nth 0 (alphaMask l) 0 = 17 / 6 /\
    nth 0 (getdata (imMask l)) 0%Z = 2%Z /\
    nth 0 (getdata (invertMask l)) 0%Z = 252%Z /\
    IZR (nth 0 (getdata (invertMask l)) 0%Z) <> 255 - nth 0 (alphaMask l) 0 /\
    nth 0 (getdata (invertMask l)) 0%Z
    <> (255 - nth 0 (getdata (imMask l)) 0)%Z.
Proof.
  destruct black_frame_distance_31 as (l & Hl & Ha & Him & Hinv & _).
  exists l. rewrite Ha, Him, Hinv. cbn [repeat nth].
  repeat split; try assumption; try lia. lra.
Qed.

(** C7 at twelve black frames. *)
Lemma every_fifth_frame_witness :
  exists w,
    video_R (repeat black_frame 12) (Some false) = (w, Ok tt) /\
    map fst (saved w) = [0; 5; 10]%nat.
Proof.
  destruct (every_fifth_frame jfif_YCbCr jfif_RGB (repeat black_frame 12))
    as ((w & Hrun & _ & _ & _ & Hidx) & _).
  - repeat constructor.
  - exists w. split; [exact Hrun | apply Hidx; reflexivity].
Defined.

Example every_fifth_frame_binary64 :
  exists w,
    video_float (repeat black_frame 12) (Some false) = (w, Ok tt) /\
    map fst (saved w) = [0; 5; 10]%nat /\ printed w = [0; 5; 10]%nat.
Proof. eexists. split; [vm_compute; reflexivity |]. split; reflexivity. Qed.

(** C8 as stated fails: of three frames, the second unreadable, only the
    first is saved; the call raises TypeError and the third frame is never
    processed. *)
Lemma batch_aborts_at_unreadable_frame :
  (exists w,
     video_R [black_frame; five_channel_frame; black_frame] None
     = (w, Raise TypeError) /\
     map fst (saved w) = [0%nat] /\ printed w = [0%nat]) /\
  (exists w,
     video_float [black_frame; five_channel_frame; black_frame] None
     = (w, Raise TypeError) /\
     map fst (saved w) = [0%nat] /\ printed w = [0%nat]).
Proof.
  split.
  - destruct (process_frames_raise (A := R) jfif_YCbCr jfif_RGB true
                [black_frame] [black_frame] five_channel_frame TypeError
                0 (World [] []))
      as (new & Hrun & Hidx).
    + constructor; [| constructor].
      apply accepted_frame_composes. reflexivity.
    + reflexivity.
    + reflexivity.
    + exists (World new (map fst new)). cbn [saved printed app] in *.
      split; [exact Hrun |]. split; exact Hidx.
  - eexists. split; [vm_compute; reflexivity |]. split; reflexivity.
Qed.

(** C8 at three frames, the second of five channels. *)
Lemma malformed_frame_ends_batch_witness :
  exists w e,
    video_R [black_frame; five_channel_frame; black_frame] None
    = (w, Raise e) /\
    map fst (saved w) = [0%nat].
Proof.
  destruct (malformed_frame_ends_batch jfif_YCbCr jfif_RGB None
              [black_frame] [black_frame] five_channel_frame
              ltac:(repeat constructor) eq_refl eq_refl)
    as (w & e & Hrun & _ & Hidx & _).
  exists w, e. split; [exact Hrun | exact Hidx].
Defined.

(** C10 as stated fails: at opacity 17/6 the output's alpha channel holds
    3, neither 17/6 nor the byte 2 of the alpha mask image. *)
Lemma output_alpha_at_fractional_alpha :
  exists l,
    compose_R black_frame 0%nat (Some (0, 128, 159)%Z) None = Ok (cleaned l) /\
    nth 0 (alphaMask l) 0 = 17 / 6 /\
    nth 0 (getdata (imMask l)) 0%Z = 2%Z /\
    nth 0 (alpha_channel (cleaned l)) 0%Z = 3%Z /\
    IZR (nth 0 (alpha_channel (cleaned l)) 0%Z) <> nth 0 (alphaMask l) 0 /\
    nth 0 (alpha_channel (cleaned l)) 0%Z <> nth 0 (getdata (imMask l)) 0%Z.
Proof.
  destruct black_frame_distance_31 as (l & Hl & Ha & Him & _ & _ & Hout).
  exists l. rewrite Ha, Him, Hout. cbn [repeat nth].
  split; [apply remove_green_screen_of_locals; exact Hl |].
  repeat split; try lia. lra.
Qed.

End Instances.

(** * Further properties of the code *)

(** ** The compositor, for any arithmetic *)

Section CompositorAny.

Context {A : Type} `{PyNum A}.
Variable convert_YCbCr : list Z -> ycbcr.
Variable convert_RGB : ycbcr -> Z * Z * Z.

Local Notation "'locals_any'" :=
  (remove_green_screen_locals (A := A) convert_YCbCr convert_RGB).
Local Notation "'compose_any'" :=
  (remove_green_screen (A := A) convert_YCbCr convert_RGB).

Lemma mapM_Ok_inv {X Y : Type} (f : X -> result Y) (l : list X) (bs : list Y) :
  mapM f l = Ok bs -> Forall2 (fun x b => f x = Ok b) l bs.
Proof.
  revert bs. induction l as [| x l IH]; intros bs; cbn [mapM].
  - intros [= <-]. constructor.
  - destruct (f x) as [e | b] eqn:Hx; cbn [bind]; [discriminate |].
    destruct (mapM f l) as [e | bs'] eqn:Hl; cbn [bind]; [discriminate |].
    intros [= <-]. constructor; [exact Hx | apply IH; reflexivity].
Qed.

Lemma mapM_Ok_length {X Y : Type} (f : X -> result Y) (l : list X) (bs : list Y) :
  mapM f l = Ok bs -> length bs = length l.
Proof.
  intros Hm. apply mapM_Ok_inv in Hm.
  symmetry. eapply Forall2_length; eassumption.
Qed.

Lemma mapM_Forall2 {X Y : Type} (f : X -> result Y) (l : list X) (bs : list Y) :
  Forall2 (fun x b => f x = Ok b) l bs -> mapM f l = Ok bs.
Proof.
  induction 1 as [| x b l bs Hx _ IH]; cbn [mapM]; [reflexivity |].
  rewrite Hx, IH. reflexivity.
Qed.

(** What a returned record of locals satisfies, local by local. *)
Lemma locals_inv (frame : ndarray) (index : nat) (key : option ycbcr)
    (tol : option (A * A)) (l : locals) :
  locals_any frame index key tol = Ok l ->
  fromarray_YCbCr convert_YCbCr frame = Ok (inDataFG l) /\
  match key with
  | None => getpixel (inDataFG l) (1, 1)%nat = Ok (keyColor l)
  | Some k => keyColor l = k
  end /\
  tolerance l = tolerance_or_default tol /\
  getdata (inDataFG l) <> [] /\
  mapM (classify (keyColor l) (tolerance l)) (getdata (inDataFG l))
  = Ok (alphaMask l) /\
  imMask l = Img (ncols frame) (nrows frame) (map uint8 (alphaMask l)) /\
  invertMask l
  = Img (ncols frame) (nrows frame) (map invert_byte (alphaMask l)) /\
  allgreen l = Image_new (ncols frame, nrows frame) (clip8_ycbcr (keyColor l)) /\
  paste convert_RGB (Image_new (ncols frame, nrows frame) (0, 0, 0, 0)%Z)
        (allgreen l) (invertMask l) = Ok (colorMask l) /\
  cleaned l = subtract (convert_RGBA convert_RGB (inDataFG l)) (colorMask l).
Proof.
  unfold remove_green_screen_locals.
  destruct (fromarray_YCbCr convert_YCbCr frame) as [e | img] eqn:Himg;
    cbn [bind]; [discriminate |].
  assert (Hsize : width img = ncols frame /\ height img = nrows frame).
  { unfold fromarray_YCbCr in Himg.
    destruct ((nchan frame =? 2)%nat || (nchan frame =? 3)%nat
              || (nchan frame =? 4)%nat); [| discriminate].
    injection Himg as <-. split; reflexivity. }
  destruct Hsize as [Hw Hh].
  destruct (match key with
            | Some k => Ok k
            | None => getpixel img (1, 1)%nat
            end) as [e | k] eqn:Hkey; cbn [bind]; [discriminate |].
  destruct k as [[Y_key Cb_key] Cr_key].
  destruct (match tol with
            | Some t => t
            | None => (of_Z 30, of_Z 120)
            end) as [tola tolb] eqn:Htol.
  unfold size. rewrite Hw, Hh.
  destruct (getdata img) as [| p0 data] eqn:Hdata; cbn [bind Raise Ok];
    [discriminate |].
  destruct (mapM _ (p0 :: data)) as [e | alphas] eqn:Halpha; cbn [bind];
    [discriminate |].
  destruct (paste _ _ _ _) as [e | cm] eqn:Hpaste; cbn [bind]; [discriminate |].
  intros [= <-]. cbn [inDataFG keyColor tolerance alphaMask imMask invertMask
                      allgreen colorMask cleaned].
  rewrite Hdata. unfold tolerance_or_default. rewrite Htol.
  repeat split; try reflexivity; try assumption.
  - destruct key as [k |]; [unfold Ok in Hkey; congruence | exact Hkey].
  - discriminate.
Qed.

Lemma compose_inv (frame : ndarray) (index : nat) (key : option ycbcr)
    (tol : option (A * A)) (out : image rgba) :
  compose_any frame index key tol = Ok out ->
  exists l, locals_any frame index key tol = Ok l /\ out = cleaned l.
Proof.
  unfold remove_green_screen.
  destruct (locals_any frame index key tol) as [e | l]; cbn [bind];
    [discriminate |].
  intros [= <-]. exists l. split; reflexivity.
Qed.

(** *** Layers of equal size *)

Lemma blend8_nonneg (m v : Z) : (0 <= m -> 0 <= v -> 0 <= blend8 m 0 v)%Z.
Proof.
  intros Hm Hv. unfold blend8. cbv zeta.
  apply Z.shiftr_nonneg.
  assert (0 <= 0 * (255 - m) + v * m + 128)%Z by nia.
  assert (0 <= Z.shiftr (0 * (255 - m) + v * m + 128) 8)%Z
    by (apply Z.shiftr_nonneg; assumption).
  lia.
Qed.

Lemma uint8_byte (x : A) : (0 <= uint8 x <= 255)%Z.
Proof.
  unfold uint8. pose proof (Z.mod_pos_bound (trunc x) 256 ltac:(lia)). lia.
Qed.

Lemma invert_byte_byte (a : A) : (0 <= invert_byte a <= 255)%Z.
Proof. unfold invert_byte. apply uint8_byte. Qed.

(** [paste] of a flat layer onto a flat layer: a map over the mask. *)
Lemma paste_flat (w h : nat) (c0 : rgba) (k : ycbcr) (masks : list Z) :
  length masks = (w * h)%nat ->
  paste convert_RGB (Image_new (w, h) c0) (Image_new (w, h) k) (Img w h masks)
  = Ok (Img w h (map (fun m => blend_rgba m c0 (convert_RGBA_pixel convert_RGB k))
                     masks)).
Proof.
  intros Hlen. unfold paste, same_size, Image_new, convert_RGBA.
  cbn [width height getdata fst snd].
  rewrite !Nat.eqb_refl. cbn [andb]. unfold Ok. do 2 f_equal.
  rewrite map_repeat_eq, combine_repeat.
  rewrite combine_repeat_l by exact Hlen.
  rewrite map_map. reflexivity.
Qed.

(** The spill layer and the output of a call that returns, pixel by pixel. *)
Lemma layers_inv (frame : ndarray) (index : nat) (key : option ycbcr)
    (tol : option (A * A)) (l : locals) :
  locals_any frame index key tol = Ok l ->
  length (getdata (inDataFG l)) = (nrows frame * ncols frame)%nat /\
  length (alphaMask l) = (nrows frame * ncols frame)%nat /\
  colorMask l
  = Img (ncols frame) (nrows frame)
        (map (fun a => blend_rgba (invert_byte a) (0, 0, 0, 0)%Z
                         (convert_RGBA_pixel convert_RGB
                            (clip8_ycbcr (keyColor l))))
             (alphaMask l)) /\
  cleaned l
  = Img (ncols frame) (nrows frame)
        (map (fun pa =>
                subtract_rgba
                  (convert_RGBA_pixel convert_RGB (fst pa))
                  (blend_rgba (invert_byte (snd pa)) (0, 0, 0, 0)%Z
                     (convert_RGBA_pixel convert_RGB
                        (clip8_ycbcr (keyColor l)))))
             (combine (getdata (inDataFG l)) (alphaMask l))).
Proof.
  intros Hl.
  destruct (locals_inv frame index key tol l Hl)
    as (Hdec & _ & _ & _ & Halpha & _ & Hinv & Hgreen & Hpaste & Hcl).
  destruct (fromarray_bytes convert_YCbCr frame _ Hdec) as (_ & Hw & Hh & Hlen).
  pose proof (mapM_Ok_length _ _ _ Halpha) as Hlen'.
  rewrite Hlen in Hlen'.
  rewrite Hgreen, Hinv in Hpaste.
  rewrite paste_flat in Hpaste
    by (rewrite length_map, Hlen'; apply Nat.mul_comm).
  injection Hpaste as Hcm. rewrite map_map in Hcm.
  split; [exact Hlen |]. split; [exact Hlen' |]. split; [now symmetry |].
  rewrite Hcl, <- Hcm. unfold subtract, convert_RGBA.
  cbn [width height getdata]. rewrite Hw, Hh. f_equal.
  generalize (alphaMask l). generalize (getdata (inDataFG l)).
  induction l0 as [| p ps IH]; intros [| a als]; cbn; try reflexivity.
  f_equal. apply IH.
Qed.

(** X1.  An image that the compositor returns has the size of the frame,
    one pixel per pixel of the frame, and at least one pixel. *)
Theorem output_has_frame_size (frame : ndarray) (index : nat)
    (key : option ycbcr) (tol : option (A * A)) (out : image rgba) :
  compose_any frame index key tol = Ok out ->
  width out = ncols frame /\
  height out = nrows frame /\
  length (getdata out) = (nrows frame * ncols frame)%nat /\
  (0 < nrows frame * ncols frame)%nat.
Proof.
  intros Hout. destruct (compose_inv frame index key tol out Hout)
    as (l & Hl & ->).
  destruct (layers_inv frame index key tol l Hl) as (Hlen & Hlen' & _ & Hcl).
  destruct (locals_inv frame index key tol l Hl) as (_ & _ & _ & Hne & _).
  rewrite Hcl. cbn [width height getdata].
  repeat split.
  - rewrite length_map, length_combine, Hlen, Hlen'. apply Nat.min_id.
  - rewrite <- Hlen. destruct (getdata (inDataFG l)); [congruence | cbn; lia].
Qed.

Lemma subtract_rgba_below (p : ycbcr) (m : Z) (k : ycbcr) :
  (0 <= m)%Z ->
  let q := subtract_rgba (convert_RGBA_pixel convert_RGB p)
             (blend_rgba m (0, 0, 0, 0)%Z (convert_RGBA_pixel convert_RGB k)) in
  byte_rgba q /\ rgba_le q (convert_RGBA_pixel convert_RGB p).
Proof.
  intros Hm. unfold convert_RGBA_pixel.
  destruct (convert_RGB p) as [[r g] b], (convert_RGB k) as [[r' g'] b'].
  cbn [blend_rgba subtract_rgba byte_rgba rgba_le]. cbv zeta.
  pose proof (clip8_range r); pose proof (clip8_range g);
    pose proof (clip8_range b); pose proof (clip8_range r');
    pose proof (clip8_range g'); pose proof (clip8_range b').
  pose proof (blend8_nonneg m (clip8 r') Hm ltac:(lia)).
  pose proof (blend8_nonneg m (clip8 g') Hm ltac:(lia)).
  pose proof (blend8_nonneg m (clip8 b') Hm ltac:(lia)).
  pose proof (blend8_nonneg m 255 Hm ltac:(lia)).
  unfold chop_subtract.
  repeat match goal with
         | |- context [clip8 (?a - ?b)] =>
             pose proof (clip8_range (a - b));
             assert (clip8 (a - b) <= Z.max 0 (a - b))%Z by (unfold clip8; lia);
             generalize dependent (clip8 (a - b)); intros
         end.
  repeat split; lia.
Qed.

(** X2.  The output holds bytes, and no channel of an output pixel is above
    the channel of the input pixel (the frame converted to RGBA): the
    compositor only darkens and makes transparent. *)
Theorem output_not_above_input (frame : ndarray) (index : nat)
    (key : option ycbcr) (tol : option (A * A)) (out : image rgba) :
  compose_any frame index key tol = Ok out ->
  exists img,
    fromarray_YCbCr convert_YCbCr frame = Ok img /\
    Forall2 (fun (p : ycbcr) (q : rgba) =>
               byte_rgba q /\ rgba_le q (convert_RGBA_pixel convert_RGB p))
            (getdata img) (getdata out).
Proof.
  intros Hout. destruct (compose_inv frame index key tol out Hout)
    as (l & Hl & ->).
  destruct (layers_inv frame index key tol l Hl) as (Hlen & Hlen' & _ & Hcl).
  destruct (locals_inv frame index key tol l Hl) as (Hdec & _).
  exists (inDataFG l). split; [exact Hdec |].
  rewrite Hcl. cbn [getdata].
  assert (Hsame : length (getdata (inDataFG l)) = length (alphaMask l))
    by congruence.
  revert Hsame. generalize (alphaMask l). generalize (getdata (inDataFG l)).
  induction l0 as [| p ps IH]; intros [| a als] Hsame; cbn in *;
    try discriminate; constructor.
  - apply subtract_rgba_below. apply invert_byte_byte.
  - apply IH. lia.
Qed.

(** *** Frames that are refused *)

(** X3.  A frame whose channel count [Image.fromarray] cannot handle makes
    the compositor raise TypeError, whatever the key and the tolerance; a
    readable frame with fewer than two rows or two columns makes it raise
    IndexError when the key colour is to be sampled at (1, 1). *)
Theorem refused_frames (frame : ndarray) (index : nat)
    (key : option ycbcr) (tol : option (A * A)) :
  (readable frame = false ->
   compose_any frame index key tol = Raise TypeError) /\
  (readable frame = true ->
   (ncols frame < 2 \/ nrows frame < 2)%nat ->
   compose_any frame index None tol = Raise IndexError).
Proof.
  unfold remove_green_screen, remove_green_screen_locals, fromarray_YCbCr,
    readable.
  split.
  - intros ->. reflexivity.
  - intros -> Hsmall. cbn [bind Ok]. unfold getpixel. cbn [width height].
    replace ((1 <? ncols frame)%nat && (1 <? nrows frame)%nat) with false;
      [reflexivity |].
    symmetry. apply andb_false_iff.
    destruct Hsmall; [left | right]; apply Nat.ltb_ge; lia.
Qed.

(** The compositor returns on accepted frames only. *)
Lemma returns_only_if_accepted (frame : ndarray) (index : nat)
    (key : option ycbcr) (tol : option (A * A)) (out : image rgba) :
  compose_any frame index key tol = Ok out -> accepts frame key = true.
Proof.
  intros Hout. destruct (compose_inv frame index key tol out Hout)
    as (l & Hl & _).
  destruct (locals_inv frame index key tol l Hl) as (Hdec & Hkey & _ & Hne & _).
  destruct (fromarray_bytes convert_YCbCr frame _ Hdec) as (_ & Hw & Hh & Hlen).
  unfold accepts. apply andb_true_iff. split.
  - unfold readable. unfold fromarray_YCbCr in Hdec.
    destruct ((nchan frame =? 2)%nat || (nchan frame =? 3)%nat
              || (nchan frame =? 4)%nat); [reflexivity | discriminate].
  - destruct key as [k |].
    + apply andb_true_iff.
      destruct (getdata (inDataFG l)) as [| p ps]; [congruence |].
      cbn [length] in Hlen. split; apply Nat.leb_le; nia.
    + unfold getpixel in Hkey. rewrite Hw, Hh in Hkey.
      destruct ((1 <? ncols frame)%nat && (1 <? nrows frame)%nat) eqn:Hin;
        [exact Hin | discriminate].
Qed.

(** *** The luma of the key *)

Lemma classify_luma (Y1 Y2 Cb Cr : Z) (t : A * A) (p : ycbcr) :
  classify (Y1, Cb, Cr) t p = classify (Y2, Cb, Cr) t p.
Proof. reflexivity. Qed.

Lemma alpha_channel_cleaned (frame : ndarray) (index : nat)
    (key : option ycbcr) (tol : option (A * A)) (l : locals) :
  locals_any frame index key tol = Ok l ->
  alpha_channel (cleaned l)
  = map (fun a => chop_subtract 255 (blend8 (invert_byte a) 0 255)) (alphaMask l).
Proof.
  intros Hl.
  destruct (layers_inv frame index key tol l Hl) as (Hlen & Hlen' & _ & Hcl).
  rewrite Hcl. unfold alpha_channel. cbn [getdata]. rewrite map_map.
  assert (Hsame : length (getdata (inDataFG l)) = length (alphaMask l))
    by congruence.
  revert Hsame. generalize (alphaMask l). generalize (getdata (inDataFG l)).
  induction l0 as [| p ps IH]; intros [| a als] Hsame; cbn [combine map length] in *;
    try discriminate; [reflexivity |].
  f_equal; [| apply IH; lia].
  cbn [fst snd]. unfold convert_RGBA_pixel.
  destruct (convert_RGB p) as [[r g] b].
  destruct (convert_RGB (clip8_ycbcr (keyColor l))) as [[r' g'] b'].
  reflexivity.
Qed.

(** The compositor with a given key, its patterns resolved. *)
Lemma locals_given_key (frame : ndarray) (index : nat) (k : ycbcr)
    (tol : option (A * A)) :
  locals_any frame index (Some k) tol
  = (img <- fromarray_YCbCr convert_YCbCr frame ;;
     fg <- match getdata img with
           | [] => Raise IndexError
           | p :: ps => Ok (p :: ps)
           end ;;
     alphas <- mapM (classify k (tolerance_or_default tol)) fg ;;
     cm <- paste convert_RGB (Image_new (size img) (0, 0, 0, 0)%Z)
             (Image_new (size img) (clip8_ycbcr k))
             (Img (width img) (height img) (map invert_byte alphas)) ;;
     Ok (Locals img k (tolerance_or_default tol) alphas
           (Img (width img) (height img) (map uint8 alphas))
           (Img (width img) (height img) (map invert_byte alphas))
           (Image_new (size img) (clip8_ycbcr k)) cm
           (subtract (convert_RGBA convert_RGB img) cm))).
Proof.
  unfold remove_green_screen_locals, tolerance_or_default.
  destruct (fromarray_YCbCr convert_YCbCr frame) as [e | img]; [reflexivity |].
  cbn [bind Ok]. destruct k as [[Y_key Cb_key] Cr_key].
  destruct (match tol with Some t => t | None => (of_Z 30, of_Z 120) end)
    as [tola tolb].
  reflexivity.
Qed.

(** X4.  The luma of the key colour has no part in the keying: two calls
    whose keys, of bytes, differ in Y only raise the same exception, or
    return with the same alpha mask, the same inverted mask and the same
    alpha channel in the output. *)
Theorem key_luma_irrelevant (frame : ndarray) (index : nat)
    (Y1 Y2 Cb Cr : Z) (tol : option (A * A)) :
  byte_ycbcr (Y1, Cb, Cr) -> byte_ycbcr (Y2, Cb, Cr) ->
  match locals_any frame index (Some (Y1, Cb, Cr)) tol,
        locals_any frame index (Some (Y2, Cb, Cr)) tol with
  | inr l1, inr l2 =>
      alphaMask l1 = alphaMask l2 /\
      imMask l1 = imMask l2 /\
      invertMask l1 = invertMask l2 /\
      alpha_channel (cleaned l1) = alpha_channel (cleaned l2)
  | inl e1, inl e2 => e1 = e2
  | _, _ => False
  end.
Proof.
  intros _ _.
  destruct (locals_any frame index (Some (Y1, Cb, Cr)) tol) as [e1 | l1] eqn:H1;
    destruct (locals_any frame index (Some (Y2, Cb, Cr)) tol) as [e2 | l2] eqn:H2.
  2, 3, 4: pose proof H1 as H1'; pose proof H2 as H2'.
  all: rewrite locals_given_key in H1, H2;
    change (classify (Y2, Cb, Cr)) with (classify (Y1, Cb, Cr)) in H2;
    destruct (fromarray_YCbCr convert_YCbCr frame) as [e | img];
    cbn [bind Ok] in H1, H2; [unfold Ok in *; congruence |];
    destruct (getdata img) as [| p0 data]; cbn [bind Ok Raise] in H1, H2;
    [unfold Ok in *; congruence |];
    destruct (mapM (classify (Y1, Cb, Cr) (tolerance_or_default tol)) (p0 :: data))
      as [e | alphas]; cbn [bind Ok] in H1, H2; [unfold Ok in *; congruence |];
    unfold paste, same_size, Image_new, size in H1, H2;
    cbn [width height fst snd] in H1, H2;
    rewrite !Nat.eqb_refl in H1, H2; cbn [andb bind Ok] in H1, H2;
    try discriminate.
  injection H1 as <-. injection H2 as <-.
  cbn [alphaMask imMask invertMask].
  repeat split.
  rewrite (alpha_channel_cleaned frame index _ tol _ H1').
  rewrite (alpha_channel_cleaned frame index _ tol _ H2').
  reflexivity.
Qed.

(** *** The output from the opacities *)

Lemma locals_sampled_key (frame : ndarray) (index : nat)
    (tol : option (A * A)) (img : image ycbcr) (k : ycbcr) :
  fromarray_YCbCr convert_YCbCr frame = Ok img ->
  getpixel img (1, 1)%nat = Ok k ->
  locals_any frame index None tol = locals_any frame index (Some k) tol.
Proof.
  intros Himg Hk. unfold remove_green_screen_locals.
  rewrite Himg. cbn [bind Ok]. rewrite Hk. reflexivity.
Qed.

Lemma compose_decode_error (frame : ndarray) (index : nat)
    (key : option ycbcr) (tol : option (A * A)) (e : exc) :
  fromarray_YCbCr convert_YCbCr frame = Raise e ->
  compose_any frame index key tol = Raise e.
Proof.
  intros Himg. unfold remove_green_screen, remove_green_screen_locals.
  rewrite Himg. reflexivity.
Qed.

Lemma compose_sampling_error (frame : ndarray) (index : nat)
    (tol : option (A * A)) (img : image ycbcr) (e : exc) :
  fromarray_YCbCr convert_YCbCr frame = Ok img ->
  getpixel img (1, 1)%nat = Raise e ->
  compose_any frame index None tol = Raise e.
Proof.
  intros Himg Hk. unfold remove_green_screen, remove_green_screen_locals.
  rewrite Himg. cbn [bind Ok]. rewrite Hk. reflexivity.
Qed.

Lemma compose_no_pixel (frame : ndarray) (index : nat) (k : ycbcr)
    (tol : option (A * A)) (img : image ycbcr) :
  fromarray_YCbCr convert_YCbCr frame = Ok img ->
  getdata img = [] ->
  compose_any frame index (Some k) tol = Raise IndexError.
Proof.
  intros Himg Hdata. unfold remove_green_screen.
  rewrite locals_given_key, Himg. cbn [bind Ok]. rewrite Hdata. reflexivity.
Qed.

(** The output of a call whose classifier returns on every pixel. *)
Lemma compose_given_alphas (frame : ndarray) (index : nat) (k : ycbcr)
    (tol : option (A * A)) (img : image ycbcr) (alphas : list A) :
  fromarray_YCbCr convert_YCbCr frame = Ok img ->
  getdata img <> [] ->
  mapM (classify k (tolerance_or_default tol)) (getdata img) = Ok alphas ->
  compose_any frame index (Some k) tol
  = Ok (Img (ncols frame) (nrows frame)
            (map (fun pa =>
                    subtract_rgba
                      (convert_RGBA_pixel convert_RGB (fst pa))
                      (blend_rgba (invert_byte (snd pa)) (0, 0, 0, 0)%Z
                         (convert_RGBA_pixel convert_RGB (clip8_ycbcr k))))
                 (combine (getdata img) alphas))).
Proof.
  intros Himg Hne Halpha.
  destruct (fromarray_bytes convert_YCbCr frame img Himg) as (_ & Hw & Hh & Hlen).
  pose proof (mapM_Ok_length _ _ _ Halpha) as Hlen'.
  assert (Hl : exists l, locals_any frame index (Some k) tol = Ok l).
  { rewrite locals_given_key, Himg. cbn [bind Ok].
    destruct (getdata img) as [| p0 data] eqn:Hdata; [congruence |].
    cbn [bind Ok]. rewrite Halpha. cbn [bind Ok].
    unfold size. rewrite Hw, Hh.
    rewrite paste_flat
      by (rewrite length_map, Hlen', Hlen; apply Nat.mul_comm).
    cbn [bind Ok]. eexists. reflexivity. }
  destruct Hl as [l Hl].
  destruct (locals_inv frame index (Some k) tol l Hl)
    as (Hdec & Hk & Ht & _ & Halpha' & _).
  destruct (layers_inv frame index (Some k) tol l Hl) as (_ & _ & _ & Hcl).
  rewrite Himg in Hdec. injection Hdec as Hdec.
  rewrite <- Hdec, Hk, Ht, Halpha in Halpha'. injection Halpha' as Halpha'.
  unfold remove_green_screen. rewrite Hl. cbn [bind Ok].
  rewrite Hcl, <- Hdec, <- Halpha', Hk. reflexivity.
Qed.

End CompositorAny.

(** ** Further properties on real numbers *)

Section ClassifierMore.

Local Open Scope R_scope.

Lemma chroma_distance_sym (a b c d : R) :
  chroma_distance a b c d = chroma_distance c d a b.
Proof. unfold chroma_distance. f_equal. ring. Qed.

Lemma chroma_distance_shift (a b c d s t : R) :
  chroma_distance (a + s) (b + t) (c + s) (d + t) = chroma_distance a b c d.
Proof. unfold chroma_distance. f_equal. ring. Qed.

(** X6.  The opacity depends on the pixel and the key through their
    difference only: exchanging the pixel and the key, or shifting both by
    the same chrominance, leaves the result unchanged. *)
Theorem colorclose_symmetric_shift_invariant
    (Cb_p Cr_p Cb_key Cr_key tola tolb s t : R) :
  colorclose Cb_p Cr_p Cb_key Cr_key tola tolb
  = colorclose Cb_key Cr_key Cb_p Cr_p tola tolb /\
  colorclose (Cb_p + s) (Cr_p + t) (Cb_key + s) (Cr_key + t) tola tolb
  = colorclose Cb_p Cr_p Cb_key Cr_key tola tolb.
Proof.
  rewrite !colorclose_ramp_eq.
  rewrite (chroma_distance_sym Cb_key Cr_key Cb_p Cr_p).
  rewrite chroma_distance_shift. split; reflexivity.
Qed.

End ClassifierMore.

Section CompositorMore.

Variable convert_YCbCr : list Z -> ycbcr.
Variable convert_RGB : ycbcr -> Z * Z * Z.

Local Open Scope R_scope.

Local Notation "'locals_of'" :=
  (remove_green_screen_locals (A := R) convert_YCbCr convert_RGB).
Local Notation "'compose'" :=
  (remove_green_screen (A := R) convert_YCbCr convert_RGB).
Local Notation "'to_rgba'" := (convert_RGBA_pixel convert_RGB).



End CompositorMore.

(** ** Further properties of the batch driver, for any arithmetic *)

Section DriverMore.

Context {A : Type} `{PyNum A}.
Variable convert_YCbCr : list Z -> ycbcr.
Variable convert_RGB : ycbcr -> Z * Z * Z.

Local Notation "'compose'" :=
  (remove_green_screen (A := A) convert_YCbCr convert_RGB).
Local Notation "'loop'" :=
  (process_frames (A := A) convert_YCbCr convert_RGB).
Local Notation "'video'" :=
  (remove_green_screen_from_video (A := A) convert_YCbCr convert_RGB).

(** Any run of the loop: it works through the selected frames in order up
    to the first one on which the compositor raises. *)
Lemma process_frames_run (flag : bool) (frames : list ndarray) :
  forall (idx : nat) (w : world),
  exists (n : nat) (new : list (nat * image rgba)) (r : result unit),
    loop flag idx frames w
    = (World (saved w ++ new) (printed w ++ map fst new), r) /\
    (n <= length frames)%nat /\
    map fst new = filter (selected flag) (seq idx n) /\
    Forall (fun s => (idx <= fst s)%nat /\
                     exists f, nth_error frames (fst s - idx) = Some f /\
                               compose f (fst s) None None = Ok (snd s))
           new /\
    match r with
    | inr _ => n = length frames
    | inl e =>
        (n < length frames)%nat /\ selected flag (idx + n) = true /\
        exists f, nth_error frames n = Some f /\
                  compose f (idx + n)%nat None None = Raise e
    end.
Proof.
  induction frames as [| frame rest IH]; intros idx w.
  - exists 0%nat, [], (Ok tt). cbn. rewrite !app_nil_r. destruct w.
    repeat split; constructor.
  - cbn [process_frames].
    destruct (selected flag idx) eqn:Hsel.
    + destruct (compose frame idx None None) as [e | img] eqn:Hcomp.
      * exists 0%nat, [], (Raise e). cbn [map app length seq filter].
        rewrite !app_nil_r. destruct w.
        split; [reflexivity |]. split; [lia |]. split; [reflexivity |].
        split; [constructor |]. cbn [Raise]. rewrite Nat.add_0_r.
        split; [lia |]. split; [exact Hsel |].
        exists frame. split; [reflexivity | exact Hcomp].
      * destruct (IH (S idx)
                     (World (saved w ++ [(idx, img)]) (printed w ++ [idx])))
          as (n & new & r & Hrun & Hn & Hidx & Hnew & Hr).
        exists (S n), ((idx, img) :: new), r.
        cbn [saved printed] in Hrun. rewrite <- !app_assoc in Hrun.
        split; [exact Hrun |]. split; [cbn; lia |].
        split; [cbn [seq filter map fst]; rewrite Hsel, Hidx; reflexivity |].
        split.
        { constructor.
          - cbn [fst snd]. split; [lia |]. exists frame.
            rewrite Nat.sub_diag. split; [reflexivity | exact Hcomp].
          - eapply Forall_impl; [| exact Hnew]. cbv beta.
            intros s [Hle [f' [Hnth Hf']]]. split; [lia |]. exists f'.
            replace (fst s - idx)%nat with (S (fst s - S idx)) by lia.
            split; assumption. }
        destruct r as [e | u].
        -- destruct Hr as (Hlt & Hsel' & f & Hnth & Hf).
           replace (idx + S n)%nat with (S idx + n)%nat by lia.
           split; [cbn; lia |]. split; [exact Hsel' |].
           exists f. split; assumption.
        -- cbn. now rewrite Hr.
    + destruct (IH (S idx) w) as (n & new & r & Hrun & Hn & Hidx & Hnew & Hr).
      exists (S n), new, r.
      split; [exact Hrun |]. split; [cbn; lia |].
      split; [cbn [seq filter]; rewrite Hsel; exact Hidx |].
      split.
      { eapply Forall_impl; [| exact Hnew]. cbv beta.
        intros s [Hle [f' [Hnth Hf']]]. split; [lia |]. exists f'.
        replace (fst s - idx)%nat with (S (fst s - S idx)) by lia.
        split; assumption. }
      destruct r as [e | u].
      * destruct Hr as (Hlt & Hsel' & f & Hnth & Hf).
        replace (idx + S n)%nat with (S idx + n)%nat by lia.
        split; [cbn; lia |]. split; [exact Hsel' |].
        exists f. split; assumption.
      * cbn. now rewrite Hr.
Qed.

(** X9.  Every run of the batch driver, whatever the frames: it saves and
    prints, in order, the selected indices below some [n], each image being
    the compositor's output for the frame of that index; it ends normally
    with [n] the number of frames, or with the exception the compositor
    raises on frame [n], which is selected.  What is printed is what is
    saved. *)
Theorem batch_run (frames : list ndarray) (flag : option bool) :
  let all := match flag with None => true | Some b => b end in
  exists n,
    (n <= length frames)%nat /\
    map fst (saved (fst (video frames flag)))
    = filter (selected all) (seq 0 n) /\
    printed (fst (video frames flag))
    = map fst (saved (fst (video frames flag))) /\
    Forall (fun s => exists f, nth_error frames (fst s) = Some f /\
                               compose f (fst s) None None = Ok (snd s))
           (saved (fst (video frames flag))) /\
    match snd (video frames flag) with
    | inr _ => n = length frames
    | inl e =>
        (n < length frames)%nat /\ selected all n = true /\
        exists f, nth_error frames n = Some f /\
                  compose f n None None = Raise e
    end.
Proof.
  cbv zeta. unfold remove_green_screen_from_video.
  destruct (process_frames_run
              (match flag with None => true | Some b => b end)
              frames 0 (World [] []))
    as (n & new & r & Hrun & Hn & Hidx & Hnew & Hr).
  rewrite Hrun. cbn [fst snd saved printed app] in *.
  exists n. split; [exact Hn |]. split; [exact Hidx |].
  split; [reflexivity |]. split; [| exact Hr].
  eapply Forall_impl; [| exact Hnew]. cbv beta.
  intros s [_ [f [Hnth Hf]]]. exists f. rewrite Nat.sub_0_r in Hnth.
  split; assumption.
Qed.

Lemma process_frames_selected_only (flag : bool) (frames : list ndarray) :
  forall (frames' : list ndarray) (idx : nat) (w : world),
    length frames = length frames' ->
    (forall i f f',
        selected flag (idx + i) = true ->
        nth_error frames i = Some f -> nth_error frames' i = Some f' ->
        f = f') ->
    loop flag idx frames w = loop flag idx frames' w.
Proof.
  induction frames as [| frame rest IH]; intros [| frame' rest'] idx w Hlen Hsame;
    try discriminate; [reflexivity |].
  cbn [process_frames].
  assert (Hrest : forall w', loop flag (S idx) rest w' = loop flag (S idx) rest' w').
  { intros w'. apply IH; [cbn in Hlen; lia |].
    intros i f f' Hsel Hf Hf'. apply (Hsame (S i)); try assumption.
    replace (idx + S i)%nat with (S idx + i)%nat by lia. exact Hsel. }
  destruct (selected flag idx) eqn:Hsel; [| apply Hrest].
  assert (frame = frame') as <-.
  { apply (Hsame 0%nat); try reflexivity. now rewrite Nat.add_0_r. }
  destruct (compose frame idx None None); [reflexivity | apply Hrest].
Qed.

(** X10.  The frames that are not selected are never looked at: two videos
    of the same length that agree on the selected frames give the same run,
    whatever the other frames hold. *)
Theorem unselected_frames_ignored (frames frames' : list ndarray)
    (flag : option bool) :
  length frames = length frames' ->
  (forall i f f',
      selected (match flag with None => true | Some b => b end) i = true ->
      nth_error frames i = Some f -> nth_error frames' i = Some f' ->
      f = f') ->
  video frames flag = video frames' flag.
Proof.
  intros Hlen Hsame. unfold remove_green_screen_from_video.
  apply process_frames_selected_only; assumption.
Qed.

Lemma count_multiples_of_5 (n : nat) :
  length (filter (selected false) (seq 0 n)) = ((n + 4) / 5)%nat.
Proof.
  induction n as [| n IH]; [reflexivity |].
  replace ((S n + 4) / 5)%nat with ((n + 5) / 5)%nat by (f_equal; lia).
  rewrite seq_S, filter_app, length_app, IH. cbn [Nat.add filter].
  unfold selected. cbn [orb].
  pose proof (Nat.div_mod_eq n 5) as Hn.
  pose proof (Nat.mod_upper_bound n 5 ltac:(lia)) as Hr.
  assert (Hq : forall r q : nat, (r < 5)%nat -> ((5 * q + r) / 5 = q)%nat).
  { intros r q Hlt. symmetry. apply (Nat.div_unique _ 5 q r); lia. }
  destruct (n mod 5 =? 0)%nat eqn:Hz.
  - apply Nat.eqb_eq in Hz. rewrite Hz, Nat.add_0_r in Hn.
    replace (n + 4)%nat with (5 * (n / 5) + 4)%nat by lia.
    replace (n + 5)%nat with (5 * (S (n / 5)) + 0)%nat by lia.
    rewrite !Hq by lia. cbn [length]. lia.
  - apply Nat.eqb_neq in Hz.
    replace (n + 4)%nat with (5 * (S (n / 5)) + (n mod 5 - 1))%nat by lia.
    replace (n + 5)%nat with (5 * (S (n / 5)) + (n mod 5))%nat by lia.
    rewrite !Hq by lia. cbn [length]. lia.
Qed.

(** X11.  A run that ends normally saves one image per frame when every
    frame is processed, and one image per started group of five frames
    otherwise: [(n + 4) / 5] images for [n] frames. *)
Theorem number_of_outputs (frames : list ndarray) (flag : option bool)
    (w : world) :
  video frames flag = (w, Ok tt) ->
  length (saved w)
  = match flag with
    | Some false => ((length frames + 4) / 5)%nat
    | _ => length frames
    end.
Proof.
  intros Hrun. unfold remove_green_screen_from_video in Hrun.
  destruct (process_frames_run
              (match flag with None => true | Some b => b end)
              frames 0 (World [] []))
    as (n & new & r & Hrun' & _ & Hidx & _ & Hr).
  rewrite Hrun in Hrun'. injection Hrun' as -> <-.
  cbn [saved app]. cbn in Hr. subst n.
  rewrite <- (length_map fst), Hidx.
  destruct flag as [[|] |].
  - rewrite filter_selected_all. apply length_seq.
  - apply count_multiples_of_5.
  - rewrite filter_selected_all. apply length_seq.
Qed.

End DriverMore.

(** ** File names *)

Section FileNamesMore.

Import Stdlib.Strings.Ascii Stdlib.Strings.String.

Lemma append_cancel_l (p a b : string) : (p ++ a = p ++ b)%string -> a = b.
Proof.
  induction p as [| c p IH]; cbn; [tauto |].
  intros [= Heq]. apply IH. exact Heq.
Qed.

Lemma append_length (a b : string) :
  String.length (a ++ b)%string = (String.length a + String.length b)%nat.
Proof. induction a as [| c a IH]; cbn; [reflexivity | now rewrite IH]. Qed.

Lemma append_cancel_r (s a b : string) : (a ++ s = b ++ s)%string -> a = b.
Proof.
  revert b. induction a as [| c a IH]; intros [| c' b] Heq; cbn in Heq.
  - reflexivity.
  - apply (f_equal String.length) in Heq. cbn in Heq.
    rewrite append_length in Heq. lia.
  - apply (f_equal String.length) in Heq. cbn in Heq.
    rewrite append_length in Heq. lia.
  - injection Heq as -> Heq. f_equal. apply IH. exact Heq.
Qed.

Lemma str_of_nat_inj (i j : nat) : str_of_nat i = str_of_nat j -> i = j.
Proof.
  unfold str_of_nat. intros Heq.
  apply DecimalNat.Unsigned.to_uint_inj.
  apply (f_equal DecimalString.NilEmpty.uint_of_string) in Heq.
  rewrite !DecimalString.NilEmpty.usu in Heq. congruence.
Qed.

Lemma path_join_relative (a b c : string) :
  starts_with_sep b = false -> starts_with_sep c = false ->
  path_join a b = path_join a c -> b = c.
Proof.
  unfold path_join. intros -> ->.
  destruct ((a =? "")%string || ends_with_sep a).
  - apply append_cancel_l.
  - intros Heq. apply append_cancel_l in Heq. cbn in Heq. congruence.
Qed.

Lemma outfile_inj (d : string) (i j : nat) :
  outfile d i = outfile d j -> i = j.
Proof.
  unfold outfile. intros Heq.
  apply path_join_relative in Heq; [| reflexivity | reflexivity].
  apply (append_cancel_l "output_") in Heq.
  apply append_cancel_r in Heq. apply str_of_nat_inj. exact Heq.
Qed.

Example outfile_run :
  outfile "out/images" 12 = "out/images/output_12.png"%string
  /\ outfile "frames/" 0 = "frames/output_0.png"%string.
Proof. split; reflexivity. Qed.

End FileNamesMore.

Section DriverFiles.

Context {A : Type} `{PyNum A}.
Variable convert_YCbCr : list Z -> ycbcr.
Variable convert_RGB : ycbcr -> Z * Z * Z.

Lemma NoDup_map_injective {X Y : Type} (f : X -> Y) (l : list X) :
  (forall x y, f x = f y -> x = y) -> NoDup l -> NoDup (map f l).
Proof.
  intros Hinj. induction 1 as [| x l Hx _ IH]; cbn; constructor; [| exact IH].
  intros Hin. apply in_map_iff in Hin as (y & Hy & Hin).
  apply Hinj in Hy. subst y. contradiction.
Qed.

(** X12.  In every run of the batch driver the images are saved under
    pairwise distinct file names [<directory>/output_<idx>.png]: no output
    overwrites another. *)
Theorem output_files_distinct (frames : list ndarray) (flag : option bool)
    (save_to_directory : String.string) :
  NoDup (map (fun s => outfile save_to_directory (fst s))
             (saved (fst (remove_green_screen_from_video (A := A)
                            convert_YCbCr convert_RGB frames flag)))).
Proof.
  unfold remove_green_screen_from_video.
  destruct (process_frames_run convert_YCbCr convert_RGB
              (match flag with None => true | Some b => b end)
              frames 0 (World [] []))
    as (n & new & r & Hrun & _ & Hidx & _).
  rewrite Hrun. cbn [fst saved app].
  rewrite <- (map_map fst (outfile save_to_directory)), Hidx.
  apply NoDup_map_injective; [apply outfile_inj |].
  apply NoDup_filter, seq_NoDup.
Qed.

End DriverFiles.

(** * The code in binary64 *)

(** ** The order of binary64 *)

Section Binary64Order.

Lemma SFcompare_rank (x y : spec_float) :
  SFcompare x y
  = match SFrank x, SFrank y with
    | Some a, Some b => Some (lex_compare a b)
    | _, _ => None
    end.
Proof.
  destruct x as [sx | sx | | sx mx ex], y as [sy | sy | | sy my ey];
    try destruct sx; try destruct sy; try reflexivity;
    cbn [SFcompare SFrank lex_compare Z.compare];
    rewrite ?Z.compare_opp; try reflexivity.
  cbn [Pos.compare Pos.compare_cont CompOpp Z.compare].
  rewrite (Z.compare_antisym ex ey).
  change (PosDef.Pos.compare_cont Eq mx my) with (Pos.compare mx my).
  rewrite (Pos.compare_antisym mx my).
  destruct (ex ?= ey)%Z; reflexivity.
Qed.

Lemma lex_compare_lt_le_trans (a b c : Z * Z * Z) :
  lex_compare a b = Lt -> lex_compare b c <> Gt -> lex_compare a c = Lt.
Proof.
  destruct a as [[a1 a2] a3], b as [[b1 b2] b3], c as [[c1 c2] c3].
  unfold lex_compare. intros Hab Hbc. lex_cases.
Qed.

Lemma lex_compare_le_trans (a b c : Z * Z * Z) :
  lex_compare a b <> Gt -> lex_compare b c <> Gt -> lex_compare a c <> Gt.
Proof.
  destruct a as [[a1 a2] a3], b as [[b1 b2] b3], c as [[c1 c2] c3].
  unfold lex_compare. intros Hab Hbc. lex_cases.
Qed.

Lemma lex_compare_ge_lt_trans (t a b : Z * Z * Z) :
  lex_compare t a <> Lt -> lex_compare t b = Lt -> lex_compare a b = Lt.
Proof.
  destruct t as [[t1 t2] t3], a as [[a1 a2] a3], b as [[b1 b2] b3].
  unfold lex_compare. intros Hta Htb. lex_cases.
Qed.

Lemma SFrank_None (x : spec_float) : SFrank x = None -> x = S754_nan.
Proof. destruct x as [s | s | | s m e]; try destruct s; cbn; congruence. Qed.

Lemma SFltb_rank (x y : spec_float) :
  SFltb x y = true <->
  exists a b, SFrank x = Some a /\ SFrank y = Some b /\ lex_compare a b = Lt.
Proof.
  unfold SFltb. rewrite SFcompare_rank.
  destruct (SFrank x) as [a |], (SFrank y) as [b |]; split;
    try discriminate; try (intros (? & ? & ? & ? & ?); discriminate).
  - destruct (lex_compare a b) eqn:E; try discriminate. intros _. now exists a, b.
  - intros (a' & b' & [= <-] & [= <-] & ->). reflexivity.
Qed.

Lemma SFleb_rank (x y : spec_float) :
  SFleb x y = true <->
  exists a b, SFrank x = Some a /\ SFrank y = Some b /\ lex_compare a b <> Gt.
Proof.
  unfold SFleb. rewrite SFcompare_rank.
  destruct (SFrank x) as [a |], (SFrank y) as [b |]; split;
    try discriminate; try (intros (? & ? & ? & ? & ?); discriminate).
  - destruct (lex_compare a b) eqn:E; try discriminate; intros _;
      exists a, b; rewrite E; repeat split; discriminate.
  - intros (a' & b' & [= <-] & [= <-] & Hc).
    destruct (lex_compare a b); congruence.
Qed.

(** [x < b] and [b <= a] give [x < a], for floats as for numbers: a NaN
    satisfies neither hypothesis. *)
Lemma ltb_leb_trans (x b a : float) :
  PrimFloat.ltb x b = true -> PrimFloat.leb b a = true ->
  PrimFloat.ltb x a = true.
Proof.
  rewrite !FloatAxioms.ltb_spec, FloatAxioms.leb_spec.
  rewrite !SFltb_rank, SFleb_rank.
  intros (rx & rb & Hx & Hb & Hlt) (rb' & ra & Hb' & Ha & Hle).
  rewrite Hb in Hb'. injection Hb' as <-.
  exists rx, ra. repeat split; try assumption.
  eapply lex_compare_lt_le_trans; eassumption.
Qed.

Lemma leb_trans (x y z : float) :
  PrimFloat.leb x y = true -> PrimFloat.leb y z = true ->
  PrimFloat.leb x z = true.
Proof.
  rewrite !FloatAxioms.leb_spec, !SFleb_rank.
  intros (rx & ry & Hx & Hy & Hxy) (ry' & rz & Hy' & Hz & Hyz).
  rewrite Hy in Hy'. injection Hy' as <-.
  exists rx, rz. repeat split; try assumption.
  eapply lex_compare_le_trans; eassumption.
Qed.

End Binary64Order.

(** ** Differences and squares in binary64 *)

Section Binary64Sub.

Local Open Scope Z_scope.

Local Notation "'emin'" := (SpecFloat.emin prec emax).
Local Notation "'fexp'" := (SpecFloat.fexp prec emax).

Lemma emin_eq : emin = -1074.
Proof. reflexivity. Qed.

Lemma fexp_eq (e : Z) : fexp e = Z.max (e - 53) (-1074).
Proof. reflexivity. Qed.

(** The number of digits of a mantissa. *)
Lemma digits2_size (m : positive) : digits2_pos m = Pos.size m.
Proof. induction m as [m IH | m IH |]; cbn; now rewrite ?IH. Qed.

Lemma digits2_bounds (m : positive) :
  2 ^ (Zpos (digits2_pos m) - 1) <= Zpos m < 2 ^ Zpos (digits2_pos m).
Proof.
  rewrite digits2_size. split.
  - pose proof (Pos.size_le m) as Hle.
    apply Pos2Z.pos_le_pos in Hle. rewrite Pos2Z.inj_pow in Hle.
    replace (Zpos (Pos.size m)) with (Zpos (Pos.size m) - 1 + 1) in Hle by lia.
    rewrite Z.pow_add_r in Hle by lia. change (2 ^ 1) with 2 in Hle.
    change (Zpos m~0) with (2 * Zpos m) in Hle. lia.
  - pose proof (Pos.size_gt m) as Hgt.
    apply Pos2Z.pos_lt_pos in Hgt. now rewrite Pos2Z.inj_pow in Hgt.
Qed.

(** Shifting a mantissa to the left. *)
Lemma iter_xO (m d : positive) : Zpos (Pos.iter xO m d) = Zpos m * 2 ^ Zpos d.
Proof.
  induction d as [| d IH] using Pos.peano_ind.
  - cbn. lia.
  - rewrite Pos.iter_succ, Pos2Z.inj_succ, Z.pow_succ_r by lia.
    change (Zpos (Pos.iter xO m d)~0) with (2 * Zpos (Pos.iter xO m d)).
    rewrite IH. ring.
Qed.

Lemma shl_align_spec (m : positive) (e e' : Z) :
  Zpos (fst (shl_align m e e')) = Zpos m * 2 ^ (e - Z.min e e')
  /\ snd (shl_align m e e') = Z.min e e'.
Proof.
  unfold shl_align. destruct (e' - e) as [| d | d] eqn:Hd; cbn [fst snd].
  - replace (Z.min e e') with e by lia. rewrite Z.sub_diag. cbn. lia.
  - replace (Z.min e e') with e by lia. rewrite Z.sub_diag. cbn. lia.
  - replace (Z.min e e') with e' by lia.
    replace (e - e') with (Zpos d) by lia. split; [apply iter_xO | reflexivity].
Qed.

(** Shifting a mantissa to the right. *)
Lemma shr_1_m (mrs : shr_record) :
  0 <= shr_m mrs -> shr_m (shr_1 mrs) = shr_m mrs / 2.
Proof.
  destruct mrs as [m r s]. cbn [shr_m shr_1]. intros Hm.
  destruct m as [| p | p]; [reflexivity | | lia].
  destruct p as [p | p |]; cbn [shr_m].
  - rewrite Pos2Z.inj_xI. apply (Z.div_unique _ 2 _ 1); lia.
  - rewrite Pos2Z.inj_xO. apply (Z.div_unique _ 2 _ 0); lia.
  - reflexivity.
Qed.

Lemma iter_shr_m (n : positive) :
  forall mrs : shr_record,
    0 <= shr_m mrs ->
    shr_m (SpecFloat.iter_pos shr_1 n mrs) = shr_m mrs / 2 ^ Zpos n.
Proof.
  induction n as [n IH | n IH |]; intros mrs Hm; cbn [SpecFloat.iter_pos].
  - assert (H1 : 0 <= shr_m (shr_1 mrs))
      by (rewrite shr_1_m by exact Hm; apply Z.div_pos; lia).
    assert (H2 : 0 <= shr_m (SpecFloat.iter_pos shr_1 n (shr_1 mrs)))
      by (rewrite IH by exact H1; apply Z.div_pos; [exact H1 | lia]).
    rewrite IH, IH, shr_1_m by assumption.
    assert (Hp : 0 < 2 ^ Zpos n) by (apply Z.pow_pos_nonneg; lia).
    rewrite !Z.div_div by lia. f_equal.
    rewrite (Pos2Z.inj_xI n).
    replace (2 * Zpos n + 1) with (1 + Zpos n + Zpos n) by lia.
    rewrite !Z.pow_add_r by lia. change (2 ^ 1) with 2. ring.
  - assert (H1 : 0 <= shr_m (SpecFloat.iter_pos shr_1 n mrs))
      by (rewrite IH by exact Hm; apply Z.div_pos; [exact Hm | lia]).
    rewrite IH, IH by assumption.
    assert (Hp : 0 < 2 ^ Zpos n) by (apply Z.pow_pos_nonneg; lia).
    rewrite Z.div_div by lia. f_equal.
    rewrite (Pos2Z.inj_xO n).
    replace (2 * Zpos n) with (Zpos n + Zpos n) by lia.
    rewrite Z.pow_add_r by lia. ring.
  - apply shr_1_m. exact Hm.
Qed.


(** Rounding a positive mantissa at an exponent that is not below the
    least one gives a positive mantissa: the shift to the right keeps the
    53 leading digits. *)
Lemma shr_fexp_positive (m : positive) (e : Z) :
  emin <= e ->
  0 < shr_m (fst (shr_fexp prec emax (Zpos m) e loc_Exact))
  /\ emin <= snd (shr_fexp prec emax (Zpos m) e loc_Exact).
Proof.
  intros He. rewrite emin_eq in *.
  unfold shr_fexp, shr. cbn [Zdigits2 shr_record_of_loc].
  rewrite fexp_eq.
  pose proof (digits2_bounds m) as [Hlo Hhi].
  set (d := Zpos (digits2_pos m)) in *.
  destruct (Z.max (d + e - 53) (-1074) - e) as [| n | n] eqn:Hn;
    cbn [fst snd shr_m]; try (split; lia).
  assert (Hd : Zpos n = d - 53) by lia.
  split; [| lia].
  rewrite iter_shr_m by (cbn; lia). cbn [shr_m].
  apply Z.div_str_pos. split; [apply Z.pow_pos_nonneg; lia |].
  rewrite Hd. apply Z.le_trans with (2 ^ (d - 1)); [| exact Hlo].
  apply Z.pow_le_mono_r; lia.
Qed.

Lemma round_nearest_even_positive (m : Z) (l : location) :
  0 < m -> 0 < round_nearest_even m l.
Proof.
  intros Hm. unfold round_nearest_even.
  destruct l as [| [| |]]; try lia. destruct (Z.even m); lia.
Qed.

Lemma binary_round_aux_nonzero (sx : bool) (m : positive) (e : Z) (s : bool) :
  emin <= e ->
  binary_round_aux prec emax sx (Zpos m) e loc_Exact <> S754_zero s.
Proof.
  intros He. unfold binary_round_aux.
  destruct (shr_fexp_positive m e He) as [Hm1 He1].
  destruct (shr_fexp prec emax (Zpos m) e loc_Exact) as [mrs1 e1].
  cbn [fst snd] in Hm1, He1.
  pose proof (round_nearest_even_positive (shr_m mrs1)
                (loc_of_shr_record mrs1) Hm1) as Hq.
  destruct (round_nearest_even (shr_m mrs1) (loc_of_shr_record mrs1))
    as [| q | q]; try lia.
  destruct (shr_fexp_positive q e1 He1) as [Hm2 _].
  destruct (shr_fexp prec emax (Zpos q) e1 loc_Exact) as [mrs2 e2].
  cbn [fst] in Hm2.
  destruct (shr_m mrs2) as [| p | p]; try lia.
  destruct (e2 <=? emax - prec); discriminate.
Qed.

Lemma binary_normalize_nonzero (m e : Z) (s : bool) :
  m <> 0 -> emin <= e ->
  binary_normalize prec emax m e false <> S754_zero s.
Proof.
  intros Hm He. unfold binary_normalize, binary_round.
  destruct m as [| p | p]; [congruence | |].
  all: destruct (shl_align_spec p e (fexp (Zpos (digits2_pos p) + e)))
         as [_ Hez];
    destruct (shl_align p e (fexp (Zpos (digits2_pos p) + e))) as [mz ez];
    cbn [snd] in Hez;
    apply binary_round_aux_nonzero;
    rewrite Hez, fexp_eq, emin_eq in *; lia.
Qed.

(** A valid mantissa has at most 53 digits, and 53 above the least
    exponent. *)
Lemma valid_finite (s : bool) (m : positive) (e : Z) :
  valid_binary prec emax (S754_finite s m e) = true ->
  emin <= e /\ Zpos m < 2 ^ 53 /\ (emin < e -> 2 ^ 52 <= Zpos m).
Proof.
  cbn [valid_binary]. unfold bounded, canonical_mantissa.
  intros Hv. apply andb_true_iff in Hv as [Hc _]. apply Z.eqb_eq in Hc.
  rewrite fexp_eq in Hc. rewrite emin_eq.
  pose proof (digits2_bounds m) as [Hlo Hhi].
  set (d := Zpos (digits2_pos m)) in *.
  split; [lia |]. split.
  - apply Z.lt_le_trans with (2 ^ d); [exact Hhi |].
    apply Z.pow_le_mono_r; lia.
  - intros Hgt. assert (d = 53) by lia.
    replace 52 with (d - 1) by lia. exact Hlo.
Qed.

(** The difference of two valid numbers of which one is below the other
    is not zero. *)
Lemma SFsub_nonzero (X Y : spec_float) (s : bool) :
  valid_binary prec emax X = true -> valid_binary prec emax Y = true ->
  SFltb X Y = true -> SFsub prec emax Y X <> S754_zero s.
Proof.
  intros HX HY Hlt. unfold SFltb in Hlt.
  destruct X as [sx | sx | | sx mx ex], Y as [sy | sy | | sy my ey];
    cbn [SFcompare] in Hlt; try discriminate; cbn [SFsub];
    try (destruct sx, sy; discriminate).
  destruct (valid_finite sx mx ex HX) as (Hex & Hmx & Hnx).
  destruct (valid_finite sy my ey HY) as (Hey & Hmy & Hny).
  cbv zeta. apply binary_normalize_nonzero; [| lia].
  destruct (shl_align_spec mx ex (Z.min ey ex)) as [Hx' _].
  destruct (shl_align_spec my ey (Z.min ey ex)) as [Hy' _].
  replace (Z.min ex (Z.min ey ex)) with (Z.min ey ex) in Hx' by lia.
  replace (Z.min ey (Z.min ey ex)) with (Z.min ey ex) in Hy' by lia.
  set (mx' := fst (shl_align mx ex (Z.min ey ex))) in *.
  set (my' := fst (shl_align my ey (Z.min ey ex))) in *.
  assert (Hcases :
            (sx = true /\ sy = false)
            \/ (sx = false /\ sy = false
                /\ (ex < ey \/ (ex = ey /\ Zpos mx < Zpos my)))
            \/ (sx = true /\ sy = true
                /\ (ey < ex \/ (ex = ey /\ Zpos my < Zpos mx)))).
  { destruct sx, sy; try discriminate; [right; right | left; tauto | right; left].
    - split; [reflexivity |]. split; [reflexivity |].
      destruct (Z.compare_spec ex ey) as [Heq | Hl | Hg]; try discriminate;
        [right | left; lia].
      split; [exact Heq |].
      change (PosDef.Pos.compare_cont Eq mx my) with (Pos.compare mx my) in Hlt.
      destruct (Pos.compare_spec mx my); cbn in Hlt; try discriminate. lia.
    - split; [reflexivity |]. split; [reflexivity |].
      destruct (Z.compare_spec ex ey) as [Heq | Hl | Hg]; try discriminate;
        [right | left; lia].
      split; [exact Heq |].
      change (PosDef.Pos.compare_cont Eq mx my) with (Pos.compare mx my) in Hlt.
      destruct (Pos.compare_spec mx my); try discriminate. lia. }
  assert (Hshift : forall (a b : Z) (ma mb : positive),
             emin <= a -> a < b -> Zpos ma < 2 ^ 53 -> 2 ^ 52 <= Zpos mb ->
             Zpos ma * 2 ^ (a - Z.min b a) < Zpos mb * 2 ^ (b - Z.min b a)
             /\ Zpos ma * 2 ^ (a - Z.min a b) < Zpos mb * 2 ^ (b - Z.min a b)).
  { intros a b ma mb Ha Hab Hma Hmb.
    replace (Z.min b a) with a by lia. replace (Z.min a b) with a by lia.
    rewrite Z.sub_diag. change (2 ^ 0) with 1.
    assert (2 ^ 1 <= 2 ^ (b - a)) by (apply Z.pow_le_mono_r; lia).
    change (2 ^ 1) with 2 in *. split; nia. }
  destruct Hcases as [[-> ->] | [(-> & -> & Hord) | (-> & -> & Hord)]];
    cbn [cond_Zopp].
  - lia.
  - destruct Hord as [Hl | [-> Hm]].
    + destruct (Hshift ex ey mx my Hex Hl Hmx (Hny ltac:(lia))) as [H1 _]. lia.
    + rewrite Z.min_id, Z.sub_diag in Hx', Hy'. change (2 ^ 0) with 1 in *. lia.
  - destruct Hord as [Hl | [-> Hm]].
    + destruct (Hshift ey ex my mx Hey Hl Hmy (Hnx ltac:(lia))) as [_ H1]. lia.
    + rewrite Z.min_id, Z.sub_diag in Hx', Hy'. change (2 ^ 0) with 1 in *. lia.
Qed.


(** *** Squares and their sum are not negative *)





(** *** On floats *)

Lemma SFeqb_zero (X : spec_float) :
  SFeqb X (S754_zero false) = true -> exists s, X = S754_zero s.
Proof.
  destruct X as [s | s | | s m e]; cbn; try discriminate.
  - intros _. now exists s.
  - destruct s; discriminate.
  - destruct s; discriminate.
Qed.

(** The divisor of line 27 is not zero when it is reached: [t < tolb]
    and not [t < tola]. *)
Lemma divisor_not_zero (t tola tolb : float) :
  PrimFloat.ltb t tola = false -> PrimFloat.ltb t tolb = true ->
  PrimFloat.eqb (PrimFloat.sub tolb tola) PrimFloat.zero = false.
Proof.
  rewrite !FloatAxioms.ltb_spec, FloatAxioms.eqb_spec, FloatAxioms.sub_spec.
  change (Prim2SF PrimFloat.zero) with (S754_zero false).
  intros Ha Hb.
  destruct (SFeqb (FloatAxioms.SF64sub (Prim2SF tolb) (Prim2SF tola))
              (S754_zero false)) eqn:Hz; [| reflexivity].
  exfalso. apply SFeqb_zero in Hz as [s Hz].
  apply SFltb_rank in Hb as (rt & rb & Ht & Hrb & Hlt).
  destruct (SFrank (Prim2SF tola)) as [ra |] eqn:Hra.
  - assert (Hab : SFltb (Prim2SF tola) (Prim2SF tolb) = true).
    { apply SFltb_rank. exists ra, rb. repeat split; try assumption.
      apply (lex_compare_ge_lt_trans rt); [| exact Hlt].
      intros Hc. rewrite (proj2 (SFltb_rank _ _)) in Ha; [discriminate |].
      exists rt, ra. repeat split; assumption. }
    exact (SFsub_nonzero _ _ s (FloatAxioms.Prim2SF_valid tola)
             (FloatAxioms.Prim2SF_valid tolb) Hab Hz).
  - apply SFrank_None in Hra. rewrite Hra in Hz.
    unfold FloatAxioms.SF64sub in Hz.
    destruct (Prim2SF tolb); discriminate.
Qed.


End Binary64Sub.

(** ** The classifier, for any arithmetic *)

Section ClassifierAny.

Context {A : Type} `{PyNum A}.

(** Line 23, then lines 24-30. *)
Lemma colorclose_split (Cb_p Cr_p Cb_key Cr_key tola tolb : A) :
  colorclose Cb_p Cr_p Cb_key Cr_key tola tolb
  = (temp <- chroma_temp Cb_p Cr_p Cb_key Cr_key ;;
     opacity_of_distance temp tola tolb).
Proof.
  unfold colorclose, chroma_temp.
  destruct (sq (sub Cb_key Cb_p)) as [e | dCb]; [reflexivity |].
  destruct (sq (sub Cr_key Cr_p)) as [e | dCr]; [reflexivity |].
  cbn [bind]. destruct (py_sqrt (add dCb dCr)); reflexivity.
Qed.

Lemma classify_split (key p : ycbcr) (tol : A * A) :
  classify key tol p
  = (temp <- pixel_temp key p ;; opacity_of_distance temp (fst tol) (snd tol)).
Proof.
  destruct key as [[Yk Cbk] Crk], p as [[Yp Cbp] Crp], tol as [tola tolb].
  apply colorclose_split.
Qed.

End ClassifierAny.

(** ** Tables over the bytes *)

Section Binary64.

Lemma forallb_range (k : nat) (f : Z -> bool) (z : Z) :
  forallb f (map Z.of_nat (seq 0 k)) = true ->
  (0 <= z < Z.of_nat k)%Z -> f z = true.
Proof.
  intros Hall Hz. rewrite forallb_forall in Hall. apply Hall.
  apply in_map_iff. exists (Z.to_nat z).
  split; [lia |]. apply in_seq. lia.
Qed.

Lemma forallb_bytes (f : Z -> bool) (z : Z) :
  forallb f byte_values = true -> (0 <= z <= 255)%Z -> f z = true.
Proof. intros Hall Hz. apply (forallb_range 256 f z Hall). lia. Qed.

Lemma forallb_bytes2 (f : Z -> Z -> bool) (a b : Z) :
  forallb (fun a => forallb (f a) byte_values) byte_values = true ->
  (0 <= a <= 255)%Z -> (0 <= b <= 255)%Z -> f a b = true.
Proof.
  intros Hall Ha Hb.
  apply (forallb_bytes (f a) b); [| exact Hb].
  apply (forallb_bytes (fun a => forallb (f a) byte_values) a Hall Ha).
Qed.

(** *** The tables *)

(** Every row holds at the squared distances of byte chrominances, the
    sums of the squares of two bytes. *)
Lemma binary64_table (a b : Z) :
  (0 <= a <= 255)%Z -> (0 <= b <= 255)%Z ->
  binary64_row (a * a + b * b) = true.
Proof.
  intros Ha Hb.
  apply (forallb_bytes2 (fun a b : Z => binary64_row (a * a + b * b)));
    [| exact Ha | exact Hb].
  vm_compute. reflexivity.
Qed.

Lemma temp_table (a b : Z) :
  (0 <= a <= 255)%Z -> (0 <= b <= 255)%Z ->
  temp_row (a * a + b * b) = true.
Proof.
  intros Ha Hb.
  apply (forallb_bytes2 (fun a b : Z => temp_row (a * a + b * b)));
    [| exact Ha | exact Hb].
  vm_compute. reflexivity.
Qed.

Lemma region_table (a b : Z) :
  (0 <= a <= 255)%Z -> (0 <= b <= 255)%Z ->
  region_row (a * a + b * b) = true.
Proof.
  intros Ha Hb.
  apply (forallb_bytes2 (fun a b : Z => region_row (a * a + b * b)));
    [| exact Ha | exact Hb].
  vm_compute. reflexivity.
Qed.

Lemma accuracy_table (a b : Z) :
  (0 <= a <= 255)%Z -> (0 <= b <= 255)%Z ->
  accuracy_row (a * a + b * b) = true.
Proof.
  intros Ha Hb.
  apply (forallb_bytes2 (fun a b : Z => accuracy_row (a * a + b * b)));
    [| exact Ha | exact Hb].
  vm_compute. reflexivity.
Qed.

Lemma floor_table (a b : Z) :
  (0 <= a <= 255)%Z -> (0 <= b <= 255)%Z ->
  floor_row (a * a + b * b) = true.
Proof.
  intros Ha Hb.
  apply (forallb_bytes2 (fun a b : Z => floor_row (a * a + b * b)));
    [| exact Ha | exact Hb].
  vm_compute. reflexivity.
Qed.

(** Between the thresholds, every squared distance, the sum of two squares
    or not. *)
Lemma chain_table (n : Z) :
  (900 <= n < 14400)%Z -> chain_row n = true.
Proof.
  intros Hn.
  assert (Hrow : (fun q r : Z => chain_row (900 + 256 * q + r))
                   ((n - 900) / 256)%Z ((n - 900) mod 256)%Z = true).
  { apply (forallb_bytes (fun r => chain_row (900 + 256 * ((n - 900) / 256) + r))).
    - apply (forallb_range 53
               (fun q => forallb (fun r => chain_row (900 + 256 * q + r))
                           byte_values)).
      + vm_compute. reflexivity.
      + split; [apply Z.div_pos; lia |].
        apply Z.div_lt_upper_bound; lia.
    - pose proof (Z.mod_pos_bound (n - 900) 256 ltac:(lia)). lia. }
  cbv beta in Hrow.
  replace (900 + 256 * ((n - 900) / 256) + (n - 900) mod 256)%Z with n in Hrow
    by (pose proof (Z.div_mod (n - 900) 256 ltac:(lia)); lia).
  exact Hrow.
Qed.

(** In binary64 the difference of two bytes and its square are exact. *)
Lemma binary64_sub_exact (a b : Z) :
  (0 <= a <= 255)%Z -> (0 <= b <= 255)%Z ->
  sub (of_Z a) (of_Z b) = of_Z (A := float) (a - b) /\
  sq (of_Z (a - b)) = Ok (of_Z (A := float) ((a - b) * (a - b))).
Proof.
  intros Ha Hb.
  assert (Hboth :
    PrimFloat.Leibniz.eqb (sub (of_Z a) (of_Z b)) (of_Z (a - b))
    && match sq (A := float) (of_Z (a - b)) with
       | inr v => PrimFloat.Leibniz.eqb v (of_Z ((a - b) * (a - b)))
       | inl _ => false
       end = true).
  { apply (forallb_bytes2
             (fun a b : Z =>
                PrimFloat.Leibniz.eqb (sub (of_Z a) (of_Z b)) (of_Z (a - b))
                && match sq (A := float) (of_Z (a - b)) with
                   | inr v => PrimFloat.Leibniz.eqb v (of_Z ((a - b) * (a - b)))
                   | inl _ => false
                   end));
      [| exact Ha | exact Hb].
    vm_compute. reflexivity. }
  apply andb_true_iff in Hboth as [H1 H2].
  split; [apply FloatAxioms.Leibniz.eqb_spec; exact H1 |].
  destruct (sq (A := float) (of_Z (a - b))) as [e | v]; [discriminate |].
  apply FloatAxioms.Leibniz.eqb_spec in H2. now rewrite H2.
Qed.

(** In binary64 the sum of the squares of two bytes is exact. *)
Lemma binary64_add_exact (a b : Z) :
  (0 <= a <= 255)%Z -> (0 <= b <= 255)%Z ->
  add (of_Z (a * a)) (of_Z (b * b)) = of_Z (A := float) (a * a + b * b).
Proof.
  intros Ha Hb. apply FloatAxioms.Leibniz.eqb_spec.
  apply (forallb_bytes2
           (fun a b : Z =>
              PrimFloat.Leibniz.eqb (add (of_Z (a * a)) (of_Z (b * b)))
                (of_Z (a * a + b * b))));
    [| exact Ha | exact Hb].
  vm_compute. reflexivity.
Qed.

(** *** The classifier on bytes *)

Lemma squared_distance_squares (Cb_p Cr_p Cb_key Cr_key : Z) :
  squared_distance Cb_p Cr_p Cb_key Cr_key
  = (Z.abs (Cb_key - Cb_p) * Z.abs (Cb_key - Cb_p)
     + Z.abs (Cr_key - Cr_p) * Z.abs (Cr_key - Cr_p))%Z.
Proof. unfold squared_distance. now rewrite !Z.abs_square. Qed.

(** A property of every sum of the squares of two bytes holds at the
    squared distance of byte chrominances. *)
Lemma at_squared_distance (row : Z -> bool) (Cb_p Cr_p Cb_key Cr_key : Z) :
  (forall a b : Z, (0 <= a <= 255)%Z -> (0 <= b <= 255)%Z ->
                   row (a * a + b * b)%Z = true) ->
  (0 <= Cb_p <= 255)%Z -> (0 <= Cr_p <= 255)%Z ->
  (0 <= Cb_key <= 255)%Z -> (0 <= Cr_key <= 255)%Z ->
  row (squared_distance Cb_p Cr_p Cb_key Cr_key) = true.
Proof.
  intros Hrow Hbp Hrp Hbk Hrk. rewrite squared_distance_squares.
  apply Hrow; lia.
Qed.

Lemma py_sqrt_binary64 (n : Z) :
  temp_row n = true -> py_sqrt (A := float) (of_Z n) = Ok (PrimFloat.sqrt (of_Z n)).
Proof.
  unfold temp_row. destruct (py_sqrt (A := float) (of_Z n)) as [e | t];
    [discriminate |].
  intros Ht. apply FloatAxioms.Leibniz.eqb_spec in Ht. now rewrite Ht.
Qed.

(** Line 23 in binary64: the integer arithmetic under the square root is
    exact on bytes, and the root is that of the squared distance. *)
Lemma chroma_temp_bytes (Cb_p Cr_p Cb_key Cr_key : Z) :
  (0 <= Cb_p <= 255)%Z -> (0 <= Cr_p <= 255)%Z ->
  (0 <= Cb_key <= 255)%Z -> (0 <= Cr_key <= 255)%Z ->
  chroma_temp (A := float) (of_Z Cb_p) (of_Z Cr_p) (of_Z Cb_key) (of_Z Cr_key)
  = Ok (PrimFloat.sqrt (of_Z (squared_distance Cb_p Cr_p Cb_key Cr_key))).
Proof.
  intros Hbp Hrp Hbk Hrk. unfold chroma_temp.
  destruct (binary64_sub_exact Cb_key Cb_p Hbk Hbp) as [Hb1 Hb2].
  destruct (binary64_sub_exact Cr_key Cr_p Hrk Hrp) as [Hr1 Hr2].
  rewrite Hb1, Hb2. cbn [bind Ok]. rewrite Hr1, Hr2. cbn [bind Ok].
  pose proof (binary64_add_exact (Z.abs (Cb_key - Cb_p)) (Z.abs (Cr_key - Cr_p))
                ltac:(lia) ltac:(lia)) as Hadd.
  rewrite !Z.abs_square in Hadd. rewrite Hadd.
  apply py_sqrt_binary64.
  apply (at_squared_distance temp_row Cb_p Cr_p Cb_key Cr_key temp_table);
    assumption.
Qed.

End Binary64.

(** ** The classifier in binary64 *)

Section ClassifierBinary64.

Local Open Scope R_scope.

(** *** The value of a float *)

Lemma float_value_fraction (a : float) (m : positive) (e : Z) :
  Prim2SF a = S754_finite false m e -> (e < 0)%Z ->
  float_value a = IZR (Zpos m) / IZR (2 ^ (- e)).
Proof.
  intros Ha He. unfold float_value, SF2R. rewrite Ha.
  destruct (0 <=? e)%Z eqn:Hle; [apply Z.leb_le in Hle; lia | reflexivity].
Qed.

Lemma float_value_zero (a : float) (s : bool) :
  Prim2SF a = S754_zero s -> float_value a = 0.
Proof. intros Ha. unfold float_value, SF2R. now rewrite Ha. Qed.

Lemma IZR_pow2_pos (k : Z) : (0 <= k)%Z -> 0 < IZR (2 ^ k).
Proof. intros Hk. apply IZR_lt. apply Z.pow_pos_nonneg; lia. Qed.

Lemma sqrt_lt_of_square (n : Z) (c : R) :
  (0 <= n)%Z -> 0 <= c -> IZR n < c * c -> sqrt (IZR n) < c.
Proof.
  intros Hn Hc Hlt.
  pose proof (sqrt_pos (IZR n)) as Hs.
  pose proof (sqrt_sqrt (IZR n) (IZR_le 0 n Hn)) as Hss.
  nra.
Qed.

Lemma sqrt_ge_of_square (n : Z) (c : R) :
  (0 <= n)%Z -> 0 <= c -> c * c <= IZR n -> c <= sqrt (IZR n).
Proof.
  intros Hn Hc Hle.
  pose proof (sqrt_pos (IZR n)) as Hs.
  pose proof (sqrt_sqrt (IZR n) (IZR_le 0 n Hn)) as Hss.
  nra.
Qed.

(** The thresholds on the distance are thresholds on its square. *)
Lemma sqrt_threshold (n c : Z) :
  (0 <= n)%Z -> (0 <= c)%Z ->
  (sqrt (IZR n) < IZR c <-> (n < c * c)%Z).
Proof.
  intros Hn Hc. split.
  - intros Hlt. apply Z.nle_gt. intros Hle.
    apply IZR_le in Hle. rewrite mult_IZR in Hle.
    pose proof (sqrt_ge_of_square n (IZR c) Hn (IZR_le 0 c Hc) Hle). lra.
  - intros Hlt. apply IZR_lt in Hlt. rewrite mult_IZR in Hlt.
    apply sqrt_lt_of_square; [exact Hn | exact (IZR_le 0 c Hc) | exact Hlt].
Qed.

Lemma squared_distance_nonneg (Cb_p Cr_p Cb_key Cr_key : Z) :
  (0 <= squared_distance Cb_p Cr_p Cb_key Cr_key)%Z.
Proof.
  unfold squared_distance. apply Z.add_nonneg_nonneg; apply Z.square_nonneg.
Qed.

Lemma chroma_distance_squared (Cb_p Cr_p Cb_key Cr_key : Z) :
  chroma_distance (IZR Cb_p) (IZR Cr_p) (IZR Cb_key) (IZR Cr_key)
  = sqrt (IZR (squared_distance Cb_p Cr_p Cb_key Cr_key)).
Proof.
  unfold chroma_distance, squared_distance. f_equal.
  rewrite plus_IZR, !mult_IZR, !minus_IZR. reflexivity.
Qed.

(** *** What the rows say *)

Lemma x_le_of_squares (x y : R) : 0 <= y -> x * x <= y * y -> x <= y.
Proof. intros Hy Hsq. destruct (Rle_lt_dec x y) as [Hle | Hlt]; [exact Hle | nra]. Qed.

Lemma accuracy_row_spec (n : Z) :
  (900 <= n < 14400)%Z -> accuracy_row n = true ->
  Rabs (float_value (opacity_binary64 n)
        - 255 * (sqrt (IZR n) - 30) / (120 - 30)) <= / 2 ^ 44.
Proof.
  intros Hn. unfold accuracy_row.
  replace ((n <? 900)%Z || (14400 <=? n)%Z) with false
    by (symmetry; apply orb_false_iff; split; [apply Z.ltb_ge | apply Z.leb_gt]; lia).
  pose proof (sqrt_pos (IZR n)) as Hs.
  pose proof (sqrt_sqrt (IZR n) (IZR_le 0 n ltac:(lia))) as Hss.
  set (s := sqrt (IZR n)) in *.
  replace (255 * (s - 30) / (120 - 30)) with (17 * (s - 30) / 6) by field.
  destruct (Prim2SF (opacity_binary64 n)) as [sg | sg | | sg m e] eqn:Ha;
    try discriminate.
  - intros Hz. apply Z.eqb_eq in Hz. subst n.
    rewrite (float_value_zero _ sg Ha).
    assert (s = 30).
    { unfold s. replace (IZR 900) with (30 * 30) by (simpl; ring).
      apply sqrt_square. lra. }
    replace (0 - 17 * (s - 30) / 6) with 0 by lra.
    rewrite Rabs_R0. left. apply Rinv_0_lt_compat. lra.
  - destruct sg; [discriminate |]. cbv zeta. intros Hrow.
    apply andb_true_iff in Hrow as [Hrow Hup].
    apply andb_true_iff in Hrow as [Hrow Hlo].
    apply andb_true_iff in Hrow as [He HE].
    apply Z.ltb_lt in He. apply Z.leb_le in HE, Hup.
    rewrite (float_value_fraction _ m e Ha He).
    set (P := (2 ^ (- e))%Z) in *. set (Q := (2 ^ (- e - 44))%Z) in *.
    assert (HPQ : P = (2 ^ 44 * Q)%Z).
    { unfold P, Q. rewrite <- Z.pow_add_r by lia. f_equal. lia. }
    pose proof (IZR_pow2_pos (- e) ltac:(lia)) as Hp. fold P in Hp.
    pose proof (IZR_pow2_pos (- e - 44) ltac:(lia)) as Hq. fold Q in Hq.
    set (p := IZR P) in *. set (q := IZR Q) in *.
    set (v := IZR (Z.pos m) / p).
    assert (Hv : IZR (Z.pos m) = v * p) by (unfold v; field; lra).
    assert (Hpq : q = p * / 2 ^ 44).
    { unfold p. rewrite HPQ, mult_IZR. fold q.
      replace (IZR (2 ^ 44)) with (2 ^ 44) by (simpl; lra). field. }
    set (x := 17 * p * s).
    assert (Hxx : x * x = IZR (289 * (P * P) * n)).
    { rewrite !mult_IZR. fold p. unfold x. rewrite <- Hss. ring. }
    assert (Hx0 : 0 <= x) by (unfold x; apply Rmult_le_pos; nra).
    assert (Hupper : x <= 6 * (v * p) + 510 * p + 6 * q).
    { assert (Hm : 0 < IZR (Z.pos m)) by (apply IZR_lt; lia).
      apply x_le_of_squares; [rewrite <- Hv; lra |].
      apply IZR_le in Hup. rewrite <- Hxx in Hup.
      rewrite mult_IZR, !plus_IZR, !mult_IZR in Hup. fold p q in Hup.
      rewrite <- Hv. exact Hup. }
    assert (Hlower : 6 * (v * p) + 510 * p - 6 * q <= x).
    { apply orb_true_iff in Hlo as [Hneg | Hsq].
      - apply Z.leb_le in Hneg. apply IZR_le in Hneg.
        rewrite minus_IZR, !plus_IZR, !mult_IZR in Hneg. fold p q in Hneg.
        rewrite <- Hv. lra.
      - apply Z.leb_le in Hsq. apply IZR_le in Hsq. rewrite <- Hxx in Hsq.
        rewrite mult_IZR, !minus_IZR, !plus_IZR, !mult_IZR in Hsq.
        fold p q in Hsq.
        apply x_le_of_squares; [exact Hx0 | rewrite <- Hv; exact Hsq]. }
    assert (H1 : 17 * s <= 6 * v + 510 + 6 * / 2 ^ 44).
    { apply Rmult_le_reg_l with p; [exact Hp |].
      replace (p * (17 * s)) with x by (unfold x; ring).
      replace (p * (6 * v + 510 + 6 * / 2 ^ 44))
        with (6 * (v * p) + 510 * p + 6 * (p * / 2 ^ 44)) by ring.
      rewrite <- Hpq. exact Hupper. }
    assert (H2 : 6 * v + 510 - 6 * / 2 ^ 44 <= 17 * s).
    { apply Rmult_le_reg_l with p; [exact Hp |].
      replace (p * (17 * s)) with x by (unfold x; ring).
      replace (p * (6 * v + 510 - 6 * / 2 ^ 44))
        with (6 * (v * p) + 510 * p - 6 * (p * / 2 ^ 44)) by ring.
      rewrite <- Hpq. exact Hlower. }
    apply Rabs_le. lra.
Qed.

Lemma floor_row_spec (n : Z) :
  floor_row n = true ->
  let a := opacity_binary64 n in
  PrimFloat.leb (of_Z 0) a = true /\ PrimFloat.leb a (of_Z 255) = true /\
  (0 <= invert_byte a <= 255)%Z /\
  IZR (invert_byte a) <= 255 - float_value a < IZR (invert_byte a) + 1.
Proof.
  unfold floor_row. cbv zeta.
  set (a := opacity_binary64 n). set (mb := invert_byte a).
  intros Hrow.
  apply andb_true_iff in Hrow as [Hrow Hfl].
  apply andb_true_iff in Hrow as [Hrow Hhi].
  apply andb_true_iff in Hrow as [Hrow Hlo].
  apply andb_true_iff in Hrow as [H0 H255].
  apply Z.leb_le in Hlo, Hhi.
  split; [exact H0 |]. split; [exact H255 |]. split; [lia |].
  destruct (Prim2SF a) as [sg | sg | | sg m e] eqn:Ha; try discriminate.
  - apply Z.eqb_eq in Hfl. rewrite Hfl, (float_value_zero _ sg Ha).
    simpl. lra.
  - destruct sg; [discriminate |].
    apply andb_true_iff in Hfl as [Hfl Hupper].
    apply andb_true_iff in Hfl as [He Hlower].
    apply Z.ltb_lt in He, Hupper. apply Z.leb_le in Hlower.
    rewrite (float_value_fraction _ m e Ha He).
    pose proof (IZR_pow2_pos (- e) ltac:(lia)) as Hp.
    apply IZR_le in Hlower. apply IZR_lt in Hupper.
    rewrite minus_IZR, !mult_IZR in Hlower, Hupper.
    rewrite plus_IZR in Hupper.
    set (p := IZR (2 ^ (- e))) in *.
    set (v := IZR (Z.pos m) / p).
    assert (Hv : IZR (Z.pos m) = v * p) by (unfold v; field; lra).
    rewrite Hv in Hlower, Hupper.
    split.
    + apply Rmult_le_reg_r with p; [exact Hp |]. lra.
    + apply Rmult_lt_reg_r with p; [exact Hp |]. lra.
Qed.

End ClassifierBinary64.

Section ClassifierBinary64Claims.

Local Open Scope R_scope.

(** *** Lines 24-30 in binary64 *)

(** With [tolb <= tola] the division of line 27 is never reached. *)
Lemma opacity_of_distance_degenerate (t tola tolb : float) :
  PrimFloat.leb tolb tola = true ->
  opacity_of_distance t tola tolb
  = Ok (if PrimFloat.ltb t tola then of_Z 0 else of_Z 255).
Proof.
  intros Hdeg. unfold opacity_of_distance. cbn [ltb float_PyNum].
  destruct (PrimFloat.ltb t tola) eqn:Ha; [reflexivity |].
  destruct (PrimFloat.ltb t tolb) eqn:Hb; [| reflexivity].
  rewrite (ltb_leb_trans t tolb tola Hb Hdeg) in Ha. discriminate.
Qed.

(** Lines 24-30 raise nothing, whatever the distance and the tolerances:
    the division of line 27 is reached with a divisor that is not zero. *)
Lemma opacity_of_distance_returns (t tola tolb : float) :
  exists z, opacity_of_distance t tola tolb = Ok z.
Proof.
  unfold opacity_of_distance, py_div. cbn [ltb eqb sub of_Z float_PyNum].
  destruct (PrimFloat.ltb t tola) eqn:Ha; [eexists; reflexivity |].
  destruct (PrimFloat.ltb t tolb) eqn:Hb; [| eexists; reflexivity].
  change (float_of_Z 0) with PrimFloat.zero.
  rewrite (divisor_not_zero t tola tolb Ha Hb). eexists; reflexivity.
Qed.


(** *** The classifier on byte chrominances *)

Lemma colorclose_bytes (Cb_p Cr_p Cb_key Cr_key : Z) (tola tolb : float) :
  (0 <= Cb_p <= 255)%Z -> (0 <= Cr_p <= 255)%Z ->
  (0 <= Cb_key <= 255)%Z -> (0 <= Cr_key <= 255)%Z ->
  colorclose (of_Z Cb_p) (of_Z Cr_p) (of_Z Cb_key) (of_Z Cr_key) tola tolb
  = opacity_of_distance
      (PrimFloat.sqrt (of_Z (squared_distance Cb_p Cr_p Cb_key Cr_key)))
      tola tolb.
Proof.
  intros Hbp Hrp Hbk Hrk.
  rewrite colorclose_split, chroma_temp_bytes by assumption. reflexivity.
Qed.

Lemma colorclose_bytes_default (Cb_p Cr_p Cb_key Cr_key : Z) :
  (0 <= Cb_p <= 255)%Z -> (0 <= Cr_p <= 255)%Z ->
  (0 <= Cb_key <= 255)%Z -> (0 <= Cr_key <= 255)%Z ->
  colorclose (A := float) (of_Z Cb_p) (of_Z Cr_p) (of_Z Cb_key) (of_Z Cr_key)
    (of_Z 30) (of_Z 120)
  = Ok (opacity_binary64 (squared_distance Cb_p Cr_p Cb_key Cr_key)).
Proof.
  intros Hbp Hrp Hbk Hrk. rewrite colorclose_bytes by assumption.
  set (n := squared_distance Cb_p Cr_p Cb_key Cr_key).
  pose proof (at_squared_distance temp_row Cb_p Cr_p Cb_key Cr_key temp_table
                Hbp Hrp Hbk Hrk) as Ht.
  pose proof (at_squared_distance binary64_row Cb_p Cr_p Cb_key Cr_key
                binary64_table Hbp Hrp Hbk Hrk) as Hrow.
  fold n in Ht, Hrow. unfold binary64_row in Hrow. unfold opacity_binary64.
  destruct (opacity_of_square (A := float) n) as [e | a] eqn:E; [discriminate |].
  unfold opacity_of_square in E. rewrite (py_sqrt_binary64 n Ht) in E. exact E.
Qed.

(** The opacity does not decrease between the thresholds. *)
Lemma opacity_monotone_middle (k : nat) :
  forall n : Z,
    (900 <= n)%Z -> (n + Z.of_nat k < 14400)%Z ->
    PrimFloat.leb (opacity_binary64 n) (opacity_binary64 (n + Z.of_nat k)) = true.
Proof.
  induction k as [| k IH]; intros n Hlo Hhi.
  - rewrite Z.add_0_r.
    pose proof (chain_table n ltac:(lia)) as Hrow.
    apply andb_true_iff in Hrow as [Hrefl _]. exact Hrefl.
  - apply leb_trans with (opacity_binary64 (n + Z.of_nat k)).
    + apply IH; lia.
    + pose proof (chain_table (n + Z.of_nat k) ltac:(lia)) as Hrow.
      apply andb_true_iff in Hrow as [_ Hstep].
      replace (n + Z.of_nat (S k))%Z with (n + Z.of_nat k + 1)%Z by lia.
      exact Hstep.
Qed.

Lemma region_row_spec (n : Z) :
  region_row n = true ->
  PrimFloat.ltb (PrimFloat.sqrt (of_Z n)) (of_Z 30) = (n <? 900)%Z /\
  PrimFloat.ltb (PrimFloat.sqrt (of_Z n)) (of_Z 120) = (n <? 14400)%Z /\
  ((n < 900)%Z -> opacity_binary64 n = of_Z 0) /\
  ((900 <= n < 14400)%Z ->
   opacity_binary64 n
   = mul (of_Z 255)
         (quot (sub (PrimFloat.sqrt (of_Z n)) (of_Z 30))
               (sub (of_Z 120) (of_Z 30)))) /\
  ((14400 <= n)%Z -> opacity_binary64 n = of_Z 255).
Proof.
  unfold region_row. cbv zeta. intros Hrow.
  apply andb_true_iff in Hrow as [Hrow Hval].
  apply andb_true_iff in Hrow as [H30 H120].
  apply Bool.eqb_prop in H30, H120.
  split; [exact H30 |]. split; [exact H120 |].
  destruct (n <? 900)%Z eqn:Hlow.
  - apply Z.ltb_lt in Hlow. apply FloatAxioms.Leibniz.eqb_spec in Hval.
    repeat split; intros; try lia. exact Hval.
  - apply Z.ltb_ge in Hlow. destruct (14400 <=? n)%Z eqn:Hhigh.
    + apply Z.leb_le in Hhigh. apply FloatAxioms.Leibniz.eqb_spec in Hval.
      repeat split; intros; try lia. exact Hval.
    + apply Z.leb_gt in Hhigh. apply FloatAxioms.Leibniz.eqb_spec in Hval.
      repeat split; intros; try lia. exact Hval.
Qed.

(** The opacity does not decrease with the squared distance of byte
    chrominances. *)
Lemma opacity_monotone (n1 n2 : Z) :
  region_row n1 = true -> floor_row n1 = true ->
  region_row n2 = true -> floor_row n2 = true ->
  (n1 <= n2)%Z ->
  PrimFloat.leb (opacity_binary64 n1) (opacity_binary64 n2) = true.
Proof.
  intros Hr1 Hf1 Hr2 Hf2 Hle.
  destruct (region_row_spec n1 Hr1) as (_ & _ & Hlow1 & _ & _).
  destruct (region_row_spec n2 Hr2) as (_ & _ & _ & _ & Hhigh2).
  destruct (floor_row_spec n1 Hf1) as (_ & H1 & _).
  destruct (floor_row_spec n2 Hf2) as (H2 & _).
  destruct (Z.lt_ge_cases n1 900) as [Hn1 | Hn1].
  { rewrite (Hlow1 Hn1). exact H2. }
  destruct (Z.lt_ge_cases n2 14400) as [Hn2 | Hn2].
  2: { rewrite (Hhigh2 Hn2). exact H1. }
  replace n2 with (n1 + Z.of_nat (Z.to_nat (n2 - n1)))%Z by lia.
  apply opacity_monotone_middle; lia.
Qed.





End ClassifierBinary64Claims.

Section ClassifierContinuity.

Local Open Scope R_scope.

Lemma ramp_monotone (d1 d2 tola tolb : R) :
  tola < tolb -> d1 <= d2 -> ramp d1 tola tolb <= ramp d2 tola tolb.
Proof.
  intros Htol Hd.
  assert (Hpos : 0 < / (tolb - tola)) by (apply Rinv_0_lt_compat; lra).
  assert (Hone : (tolb - tola) * / (tolb - tola) = 1) by (apply Rinv_r; lra).
  unfold ramp, Rdiv.
  destruct (Rlt_dec d1 tola), (Rlt_dec d1 tolb), (Rlt_dec d2 tola),
    (Rlt_dec d2 tolb); try lra; nra.
Qed.

Lemma ramp_lipschitz (d1 d2 tola tolb : R) :
  tola < tolb -> d1 <= d2 ->
  ramp d2 tola tolb - ramp d1 tola tolb <= (d2 - d1) / (tolb - tola).
Proof.
  intros Htol Hd.
  assert (Hpos : 0 < / (tolb - tola)) by (apply Rinv_0_lt_compat; lra).
  assert (Hone : (tolb - tola) * / (tolb - tola) = 1) by (apply Rinv_r; lra).
  unfold ramp, Rdiv.
  destruct (Rlt_dec d1 tola), (Rlt_dec d1 tolb), (Rlt_dec d2 tola),
    (Rlt_dec d2 tolb); try lra; nra.
Qed.

Lemma Rabs_bound (x a : R) : Rabs x <= a -> - a <= x <= a.
Proof. unfold Rabs. destruct (Rcase_abs x); lra. Qed.

Lemma float_value_255 : float_value (of_Z 255) = 255.
Proof.
  rewrite (float_value_fraction _ 8972014882652160 (-45))
    by (vm_compute; reflexivity).
  change (2 ^ (- (-45)))%Z with 35184372088832%Z. lra.
Qed.

(** In binary64 the opacity at the squared distance of byte chrominances
    is within [2 ^ -44] of the real opacity, in all three regions. *)
Lemma opacity_accuracy (n : Z) :
  (0 <= n)%Z -> region_row n = true -> accuracy_row n = true ->
  Rabs (float_value (opacity_binary64 n) - 255 * ramp (sqrt (IZR n)) 30 120)
  <= / 2 ^ 44.
Proof.
  intros Hn Hreg Hacc.
  destruct (region_row_spec n Hreg) as (_ & _ & Hlow & _ & Hhigh).
  pose proof (sqrt_threshold n 30 Hn ltac:(lia)) as H30.
  pose proof (sqrt_threshold n 120 Hn ltac:(lia)) as H120.
  assert (Heps : 0 < / 2 ^ 44) by (apply Rinv_0_lt_compat; lra).
  unfold ramp.
  destruct (Rlt_dec (sqrt (IZR n)) 30) as [Ha | Ha].
  - rewrite Hlow by (apply H30 in Ha; lia).
    rewrite (float_value_zero _ false) by reflexivity.
    replace (0 - 255 * 0) with 0 by ring. rewrite Rabs_R0. lra.
  - destruct (Rlt_dec (sqrt (IZR n)) 120) as [Hb | Hb].
    + replace (255 * ((sqrt (IZR n) - 30) / (120 - 30)))
        with (255 * (sqrt (IZR n) - 30) / (120 - 30)) by (unfold Rdiv; ring).
      apply accuracy_row_spec; [| exact Hacc].
      split; [| apply H120 in Hb; lia].
      apply Z.nlt_ge. intros Hc. apply H30 in Hc. contradiction.
    + rewrite Hhigh by (apply Z.nlt_ge; intros Hc; apply H120 in Hc; contradiction).
      rewrite float_value_255.
      replace (255 - 255 * 1) with 0 by ring. rewrite Rabs_R0. lra.
Qed.

(** X5.  On byte chrominances and with the default tolerances the opacity
    has no jump at either threshold: of two pixels at distances
    [d1 <= d2] of the key, the farther gets an opacity that is not smaller
    and exceeds the other by at most [255 * (d2 - d1) / (120 - 30)], up to
    the rounding of binary64, [2 ^ -43]. *)
Theorem colorclose_lipschitz (Cb_1 Cr_1 Cb_2 Cr_2 Cb_key Cr_key : Z) :
  (0 <= Cb_1 <= 255)%Z -> (0 <= Cr_1 <= 255)%Z ->
  (0 <= Cb_2 <= 255)%Z -> (0 <= Cr_2 <= 255)%Z ->
  (0 <= Cb_key <= 255)%Z -> (0 <= Cr_key <= 255)%Z ->
  chroma_distance (IZR Cb_1) (IZR Cr_1) (IZR Cb_key) (IZR Cr_key)
    <= chroma_distance (IZR Cb_2) (IZR Cr_2) (IZR Cb_key) (IZR Cr_key) ->
  exists z1 z2 : float,
    colorclose (of_Z Cb_1) (of_Z Cr_1) (of_Z Cb_key) (of_Z Cr_key)
      (of_Z 30) (of_Z 120) = Ok z1 /\
    colorclose (of_Z Cb_2) (of_Z Cr_2) (of_Z Cb_key) (of_Z Cr_key)
      (of_Z 30) (of_Z 120) = Ok z2 /\
    PrimFloat.leb z1 z2 = true /\
    float_value z2 - float_value z1
    <= 255 * (chroma_distance (IZR Cb_2) (IZR Cr_2) (IZR Cb_key) (IZR Cr_key)
              - chroma_distance (IZR Cb_1) (IZR Cr_1) (IZR Cb_key) (IZR Cr_key))
       / (120 - 30)
       + / 2 ^ 43.
Proof.
  intros Hb1 Hr1 Hb2 Hr2 Hbk Hrk Hd.
  rewrite !chroma_distance_squared in *.
  pose proof (squared_distance_nonneg Cb_1 Cr_1 Cb_key Cr_key) as Hn1.
  pose proof (squared_distance_nonneg Cb_2 Cr_2 Cb_key Cr_key) as Hn2.
  assert (Hrows : forall row,
             (forall a b : Z, (0 <= a <= 255)%Z -> (0 <= b <= 255)%Z ->
                              row (a * a + b * b)%Z = true) ->
             row (squared_distance Cb_1 Cr_1 Cb_key Cr_key) = true
             /\ row (squared_distance Cb_2 Cr_2 Cb_key Cr_key) = true).
  { intros row Hrow. split; apply at_squared_distance; assumption. }
  destruct (Hrows region_row region_table) as [Hreg1 Hreg2].
  destruct (Hrows accuracy_row accuracy_table) as [Hacc1 Hacc2].
  destruct (Hrows floor_row floor_table) as [Hfl1 Hfl2].
  set (n1 := squared_distance Cb_1 Cr_1 Cb_key Cr_key) in *.
  set (n2 := squared_distance Cb_2 Cr_2 Cb_key Cr_key) in *.
  assert (Hle : (n1 <= n2)%Z).
  { apply le_IZR. apply sqrt_le_0; [| | exact Hd]; apply IZR_le; assumption. }
  exists (opacity_binary64 n1), (opacity_binary64 n2).
  split; [apply colorclose_bytes_default; assumption |].
  split; [apply colorclose_bytes_default; assumption |].
  split; [apply opacity_monotone; assumption |].
  pose proof (opacity_accuracy n1 Hn1 Hreg1 Hacc1) as H1.
  pose proof (opacity_accuracy n2 Hn2 Hreg2 Hacc2) as H2.
  apply Rabs_bound in H1, H2.
  pose proof (ramp_lipschitz (sqrt (IZR n1)) (sqrt (IZR n2)) 30 120
                ltac:(lra) Hd) as Hlip.
  replace (/ 2 ^ 43) with (/ 2 ^ 44 + / 2 ^ 44) by field.
  unfold Rdiv in *. lra.
Qed.

End ClassifierContinuity.

Section Binary64Agreement.

Local Open Scope R_scope.

(** The integer test decides the inverted byte of the real opacity. *)
Lemma inverted_byte_at_spec (n m : Z) :
  (0 <= n)%Z -> inverted_byte_at n m = true ->
  invert_byte (255 * ramp (sqrt (IZR n)) 30 120) = m.
Proof.
  intros Hn. unfold inverted_byte_at.
  pose proof (sqrt_pos (IZR n)) as Hs.
  pose proof (sqrt_sqrt (IZR n) (IZR_le 0 n Hn)) as Hss.
  destruct (n <? 900)%Z eqn:Hlow.
  - intros Hm. apply Z.eqb_eq in Hm. subst m.
    apply Z.ltb_lt in Hlow. apply IZR_lt in Hlow.
    assert (sqrt (IZR n) < 30) by (apply sqrt_lt_of_square; [exact Hn | lra | lra]).
    unfold ramp. destruct (Rlt_dec (sqrt (IZR n)) 30); [| lra].
    replace (255 * 0) with (IZR 0) by (simpl; ring).
    apply (invert_byte_whole 0). lia.
  - apply Z.ltb_ge in Hlow. apply IZR_le in Hlow.
    assert (30 <= sqrt (IZR n)) by (apply sqrt_ge_of_square; [exact Hn | lra | lra]).
    destruct (14400 <=? n)%Z eqn:Hhigh.
    + intros Hm. apply Z.eqb_eq in Hm. subst m.
      apply Z.leb_le in Hhigh. apply IZR_le in Hhigh.
      assert (120 <= sqrt (IZR n)) by (apply sqrt_ge_of_square; [exact Hn | lra | lra]).
      unfold ramp. destruct (Rlt_dec (sqrt (IZR n)) 30); [lra |].
      destruct (Rlt_dec (sqrt (IZR n)) 120); [lra |].
      replace (255 * 1) with (IZR 255) by (simpl; ring).
      apply (invert_byte_whole 255). lia.
    + apply Z.leb_gt in Hhigh. apply IZR_lt in Hhigh.
      assert (sqrt (IZR n) < 120) by (apply sqrt_lt_of_square; [exact Hn | lra | lra]).
      intros Hm. apply andb_true_iff in Hm as [Hm Hup].
      apply andb_true_iff in Hm as [Hm Hlo].
      apply andb_true_iff in Hm as [Hm0 Hm255].
      apply Z.leb_le in Hm0, Hm255, Hup. apply Z.ltb_lt in Hlo.
      apply IZR_le in Hm0, Hm255, Hup. apply IZR_lt in Hlo.
      rewrite !mult_IZR, !minus_IZR, !mult_IZR in Hup, Hlo.
      unfold ramp. destruct (Rlt_dec (sqrt (IZR n)) 30); [lra |].
      destruct (Rlt_dec (sqrt (IZR n)) 120); [| lra].
      set (s := sqrt (IZR n)) in *.
      assert (Hupper : 17 * s <= 2040 - 6 * IZR m) by nra.
      assert (Hlower : 2034 - 6 * IZR m < 17 * s) by nra.
      assert (Ha : 255 * ((s - 30) / (120 - 30)) = 17 * (s - 30) / 6) by field.
      rewrite Ha. rewrite invert_byte_floor by lra.
      symmetry. apply Int_part_spec. lra.
Qed.

Lemma binary64_row_agrees (Cb_p Cr_p Cb_key Cr_key : Z) :
  (0 <= Cb_p <= 255)%Z -> (0 <= Cr_p <= 255)%Z ->
  (0 <= Cb_key <= 255)%Z -> (0 <= Cr_key <= 255)%Z ->
  exists (a : float) (r : R),
    colorclose (A := float) (of_Z Cb_p) (of_Z Cr_p) (of_Z Cb_key) (of_Z Cr_key)
      (of_Z 30) (of_Z 120) = Ok a /\
    colorclose (A := R) (of_Z Cb_p) (of_Z Cr_p) (of_Z Cb_key) (of_Z Cr_key)
      (of_Z 30) (of_Z 120) = Ok r /\
    invert_byte a = invert_byte r /\
    PrimFloat.leb (of_Z 0) a = true /\
    PrimFloat.leb a (of_Z 255) = true.
Proof.
  intros Hbp Hrp Hbk Hrk.
  pose proof (at_squared_distance binary64_row Cb_p Cr_p Cb_key Cr_key
                binary64_table Hbp Hrp Hbk Hrk) as Hrow.
  pose proof (colorclose_bytes_default Cb_p Cr_p Cb_key Cr_key Hbp Hrp Hbk Hrk)
    as Hfloat.
  pose proof (squared_distance_nonneg Cb_p Cr_p Cb_key Cr_key) as Hn.
  set (n := squared_distance Cb_p Cr_p Cb_key Cr_key) in *.
  unfold binary64_row in Hrow. unfold opacity_binary64 in Hfloat.
  destruct (opacity_of_square (A := float) n) as [e | a]; [discriminate |].
  apply andb_true_iff in Hrow as [Hrow Hinv].
  apply andb_true_iff in Hrow as [H0 H255].
  exists a, (255 * ramp (sqrt (IZR n)) 30 120).
  split; [exact Hfloat |].
  split.
  { rewrite colorclose_ramp_eq. cbn [of_Z R_PyNum].
    rewrite chroma_distance_squared. reflexivity. }
  split; [| split; assumption].
  symmetry. apply inverted_byte_at_spec; assumption.
Qed.

(** X13.  On bytes and with the default tolerances (30, 120), which is all
    the batch driver ever passes, binary64 and the real numbers agree: the
    classifier returns in both, the binary64 opacity lies between 0 and 255
    (it is no NaN), and both opacities give the same byte in the inverted
    mask. *)
Theorem binary64_classifier_agrees (Cb_p Cr_p Cb_key Cr_key : Z) :
  (0 <= Cb_p <= 255)%Z -> (0 <= Cr_p <= 255)%Z ->
  (0 <= Cb_key <= 255)%Z -> (0 <= Cr_key <= 255)%Z ->
  exists (a : float) (r : R),
    colorclose (A := float) (of_Z Cb_p) (of_Z Cr_p) (of_Z Cb_key) (of_Z Cr_key)
      (of_Z 30) (of_Z 120) = Ok a /\
    colorclose (A := R) (of_Z Cb_p) (of_Z Cr_p) (of_Z Cb_key) (of_Z Cr_key)
      (of_Z 30) (of_Z 120) = Ok r /\
    PrimFloat.leb (of_Z 0) a = true /\
    PrimFloat.leb a (of_Z 255) = true /\
    invert_byte a = invert_byte r.
Proof.
  intros Hbp Hrp Hbk Hrk.
  destruct (binary64_row_agrees Cb_p Cr_p Cb_key Cr_key Hbp Hrp Hbk Hrk)
    as (a & r & Ha & Hr & Hinv & H0 & H255).
  exists a, r. repeat split; assumption.
Qed.

(** X13 at the chroma pair (128, 159) and the key (128, 128). *)
Lemma binary64_classifier_agrees_witness :
  exists (a : float) (r : R),
    colorclose (A := float) (of_Z 128) (of_Z 159) (of_Z 128) (of_Z 128)
      (of_Z 30) (of_Z 120) = Ok a /\
    colorclose (A := R) 128 159 128 128 30 120 = Ok r /\
    invert_byte a = invert_byte r.
Proof.
  destruct (binary64_classifier_agrees 128 159 128 128)
    as (a & r & Ha & Hr & _ & _ & Hinv); try lia.
  exists a, r. split; [exact Ha |]. split; [exact Hr | exact Hinv].
Defined.

End Binary64Agreement.

(** ** The compositor on accepted frames, for any arithmetic *)

Section CompositorReturns.

Context {A : Type} `{PyNum A}.
Variable convert_YCbCr : list Z -> ycbcr.
Variable convert_RGB : ycbcr -> Z * Z * Z.

Local Notation "'locals_any'" :=
  (remove_green_screen_locals (A := A) convert_YCbCr convert_RGB).
Local Notation "'compose_any'" :=
  (remove_green_screen (A := A) convert_YCbCr convert_RGB).

Lemma mapM_returns {X Y : Type} (f : X -> result Y) (l : list X) :
  Forall (fun x => exists b, f x = Ok b) l -> exists bs, mapM f l = Ok bs.
Proof.
  induction 1 as [| x l [b Hb] _ [bs Hbs]]; cbn [mapM].
  - eexists; reflexivity.
  - rewrite Hb, Hbs. eexists; reflexivity.
Qed.


Lemma Forall2_map_r {X Y W : Type} (P : X -> Y -> Prop) (Q : X -> W -> Prop)
    (g : Y -> W) (l1 : list X) (l2 : list Y) :
  Forall2 P l1 l2 ->
  (forall x y, P x y -> Q x (g y)) ->
  Forall2 Q l1 (map g l2).
Proof.
  intros Hall Hg. induction Hall as [| x y l1 l2 Hxy _ IH]; cbn [map];
    constructor; [apply Hg; exact Hxy | exact IH].
Qed.

Lemma Forall2_Forall_l {X Y : Type} (P : X -> Prop) (Q : X -> Y -> Prop)
    (R : X -> Y -> Prop) (l1 : list X) (l2 : list Y) :
  Forall P l1 -> Forall2 Q l1 l2 ->
  (forall x y, P x -> Q x y -> R x y) ->
  Forall2 R l1 l2.
Proof.
  intros HP HQ HR. induction HQ as [| x y l1 l2 Hxy _ IH]; constructor.
  - apply HR; [now inversion HP | exact Hxy].
  - apply IH. now inversion HP.
Qed.

(** The compositor returns on a frame it accepts when the classifier
    returns on every pixel. *)
Lemma locals_returns (frame : ndarray) (index : nat) (key : option ycbcr)
    (tol : option (A * A)) :
  accepts frame key = true ->
  (forall img k,
      fromarray_YCbCr convert_YCbCr frame = Ok img ->
      match key with
      | None => getpixel img (1, 1)%nat = Ok k
      | Some k' => k' = k
      end ->
      Forall (fun p => exists a, classify k (tolerance_or_default tol) p = Ok a)
             (getdata img)) ->
  exists l, locals_any frame index key tol = Ok l.
Proof.
  intros Hacc Hclass. unfold accepts in Hacc.
  apply andb_true_iff in Hacc as [Hread Hsize].
  pose proof (fromarray_readable convert_YCbCr frame Hread) as Himg.
  set (img := Img (ncols frame) (nrows frame)
                (map (fun i => clip8_ycbcr (convert_YCbCr (pixel_at frame i)))
                     (seq 0 (nrows frame * ncols frame)))) in *.
  destruct (fromarray_bytes convert_YCbCr frame img Himg) as (_ & Hw & Hh & Hlen).
  assert (Hgiven : forall k,
             match key with
             | None => getpixel img (1, 1)%nat = Ok k
             | Some k' => k' = k
             end ->
             (0 < nrows frame * ncols frame)%nat ->
             exists l, locals_any frame index (Some k) tol = Ok l).
  { intros k Hk Hpos.
    destruct (mapM_returns _ _ (Hclass img k Himg Hk)) as [alphas Halpha].
    pose proof (mapM_Ok_length _ _ _ Halpha) as Hlen'.
    rewrite locals_given_key, Himg. cbn [bind Ok].
    destruct (getdata img) as [| p0 data] eqn:Hdata;
      [cbn [length] in Hlen; lia |].
    cbn [bind Ok]. rewrite Halpha. cbn [bind Ok].
    unfold size. rewrite Hw, Hh.
    rewrite paste_flat
      by (rewrite length_map, Hlen', Hlen; apply Nat.mul_comm).
    cbn [bind Ok]. eexists. reflexivity. }
  destruct key as [k |].
  - apply Hgiven; [reflexivity |].
    apply andb_true_iff in Hsize as [Hc Hr]. apply Nat.leb_le in Hc, Hr. nia.
  - apply andb_true_iff in Hsize as [Hc Hr]. apply Nat.leb_le in Hc, Hr.
    destruct (getpixel_inside img 1 1) as [k [Hk _]];
      [rewrite Hlen, Hw, Hh; reflexivity | rewrite Hw; lia | rewrite Hh; lia |].
    rewrite (locals_sampled_key convert_YCbCr convert_RGB frame index tol img k
               Himg Hk).
    apply Hgiven; [exact Hk | nia].
Qed.

(** The alpha channels of the layers of a call that returns: the spill
    layer carries the inverted mask, the output 255 minus it. *)
Lemma alpha_channels (frame : ndarray) (index : nat) (key : option ycbcr)
    (tol : option (A * A)) (l : locals) :
  locals_any frame index key tol = Ok l ->
  alpha_channel (colorMask l) = getdata (invertMask l) /\
  alpha_channel (cleaned l)
  = map (fun m => (255 - m)%Z) (getdata (invertMask l)).
Proof.
  intros Hl.
  destruct (locals_inv convert_YCbCr convert_RGB frame index key tol l Hl)
    as (_ & _ & _ & _ & _ & _ & Hinv & _).
  destruct (layers_inv convert_YCbCr convert_RGB frame index key tol l Hl)
    as (_ & _ & Hcm & _).
  split.
  - unfold alpha_channel. rewrite Hcm, Hinv. cbn [getdata]. rewrite map_map.
    apply map_ext. intros a.
    apply blend_rgba_alpha. apply invert_byte_byte.
  - rewrite (alpha_channel_cleaned convert_YCbCr convert_RGB frame index key
               tol l Hl).
    rewrite Hinv. cbn [getdata]. rewrite map_map. apply map_ext. intros a.
    rewrite blend8_transparent_opaque by apply invert_byte_byte.
    apply chop_subtract_opaque. apply invert_byte_byte.
Qed.

(** C6.  In a call that returns: with the key colour omitted, the key
    colour in force is the pixel at (1, 1) of the frame converted to YCbCr,
    entry [1 * width + 1] of its data; with the tolerance omitted, the
    tolerance in force is (30, 120); a key colour or a tolerance that is
    given is the one in force.  The alpha mask is the classifier applied
    with that key colour and that tolerance, and the flat layer is filled
    with that key colour. *)
Theorem defaults_resolved (frame : ndarray) (index : nat)
    (key : option ycbcr) (tol : option (A * A)) (l : locals) :
  locals_any frame index key tol = Ok l ->
  fromarray_YCbCr convert_YCbCr frame = Ok (inDataFG l) /\
  match key with
  | None =>
      getpixel (inDataFG l) (1, 1)%nat = Ok (keyColor l) /\
      nth_error (getdata (inDataFG l)) (1 * width (inDataFG l) + 1)
      = Some (keyColor l)
  | Some k => keyColor l = k
  end /\
  match tol with
  | None => tolerance l = (of_Z 30, of_Z 120)
  | Some t => tolerance l = t
  end /\
  mapM (classify (keyColor l) (tolerance l)) (getdata (inDataFG l))
  = Ok (alphaMask l) /\
  allgreen l = Image_new (size (inDataFG l)) (clip8_ycbcr (keyColor l)).
Proof.
  intros Hl.
  destruct (locals_inv convert_YCbCr convert_RGB frame index key tol l Hl)
    as (Hdec & Hkey & Htol & _ & Halpha & _ & _ & Hgreen & _).
  destruct (fromarray_bytes convert_YCbCr frame _ Hdec) as (_ & Hw & Hh & _).
  split; [exact Hdec |]. split; [| split; [| split]].
  - destruct key as [k |]; [exact Hkey |]. split; [exact Hkey |].
    unfold getpixel in Hkey.
    destruct ((1 <? width (inDataFG l))%nat && (1 <? height (inDataFG l))%nat);
      [| discriminate].
    destruct (nth_error (getdata (inDataFG l)) (1 * width (inDataFG l) + 1));
      [| discriminate].
    unfold Ok in Hkey. congruence.
  - destruct tol as [t |]; exact Htol.
  - exact Halpha.
  - rewrite Hgreen. unfold size. now rewrite Hw, Hh.
Qed.

End CompositorReturns.

(** ** binary64 against the real numbers: the compositor *)

Section Binary64Compositor.

Variable convert_YCbCr : list Z -> ycbcr.
Variable convert_RGB : ycbcr -> Z * Z * Z.

Local Notation "'compose_float'" :=
  (remove_green_screen (A := float) convert_YCbCr convert_RGB).
Local Notation "'compose_R'" :=
  (remove_green_screen (A := R) convert_YCbCr convert_RGB).

Lemma classify_agrees (k p : ycbcr) :
  byte_ycbcr k -> byte_ycbcr p ->
  exists (a : float) (r : R),
    classify (A := float) k (tolerance_or_default None) p = Ok a /\
    classify (A := R) k (tolerance_or_default None) p = Ok r /\
    invert_byte a = invert_byte r.
Proof.
  destruct k as [[Yk Cbk] Crk], p as [[Yp Cbp] Crp]. cbn [byte_ycbcr].
  intros (_ & Hbk & Hrk) (_ & Hbp & Hrp).
  destruct (binary64_row_agrees Cbp Crp Cbk Crk Hbp Hrp Hbk Hrk)
    as (a & r & Ha & Hr & Hinv & _).
  exists a, r. split; [exact Ha |]. split; [exact Hr | exact Hinv].
Qed.

Lemma mapM_classify_agrees (k : ycbcr) (data : list ycbcr) :
  byte_ycbcr k -> Forall byte_ycbcr data ->
  exists (af : list float) (ar : list R),
    mapM (classify (A := float) k (tolerance_or_default None)) data = Ok af /\
    mapM (classify (A := R) k (tolerance_or_default None)) data = Ok ar /\
    Forall2 (fun a r => invert_byte a = invert_byte r) af ar.
Proof.
  intros Hk. induction 1 as [| p data Hp _ IH].
  - exists [], []. repeat split. constructor.
  - destruct IH as (af & ar & Hf & Hr & Hall).
    destruct (classify_agrees k p Hk Hp) as (a & r & Ha & Hr' & Hinv).
    exists (a :: af), (r :: ar). cbn [mapM].
    rewrite Ha, Hr', Hf, Hr. repeat split. constructor; assumption.
Qed.

Lemma map_combine_agrees (G : ycbcr -> Z -> rgba) (af : list float)
    (ar : list R) :
  Forall2 (fun a r => invert_byte a = invert_byte r) af ar ->
  forall data : list ycbcr,
    map (fun pa => G (fst pa) (invert_byte (snd pa))) (combine data af)
    = map (fun pa => G (fst pa) (invert_byte (snd pa))) (combine data ar).
Proof.
  induction 1 as [| a r af ar Hinv _ IH]; intros [| p data];
    cbn [combine map fst snd]; try reflexivity.
  rewrite Hinv, IH. reflexivity.
Qed.

(** With the default tolerances and a key of bytes, the compositor
    computes the same in binary64 as on real numbers. *)
Lemma compose_agrees (frame : ndarray) (index : nat) (key : option ycbcr) :
  match key with None => True | Some k => byte_ycbcr k end ->
  compose_float frame index key None = compose_R frame index key None.
Proof.
  intros Hkey.
  destruct (fromarray_YCbCr convert_YCbCr frame) as [e | img] eqn:Himg.
  { rewrite !(compose_decode_error _ _ _ _ _ _ e Himg). reflexivity. }
  destruct (fromarray_bytes convert_YCbCr frame img Himg) as (Hbytes & _).
  assert (Hgiven : forall k, byte_ycbcr k ->
            compose_float frame index (Some k) None
            = compose_R frame index (Some k) None).
  { intros k Hk.
    destruct (getdata img) as [| p0 data] eqn:Hdata.
    - rewrite !(compose_no_pixel _ _ _ _ k None img Himg Hdata). reflexivity.
    - rewrite <- Hdata in *.
      assert (Hne : getdata img <> []) by (rewrite Hdata; discriminate).
      destruct (mapM_classify_agrees k (getdata img) Hk Hbytes)
        as (af & ar & Hf & Hr & Hall).
      rewrite (compose_given_alphas _ _ _ _ k None img af Himg Hne Hf).
      rewrite (compose_given_alphas _ _ _ _ k None img ar Himg Hne Hr).
      unfold Ok. do 2 f_equal.
      exact (map_combine_agrees
               (fun p m =>
                  subtract_rgba (convert_RGBA_pixel convert_RGB p)
                    (blend_rgba m (0, 0, 0, 0)%Z
                       (convert_RGBA_pixel convert_RGB (clip8_ycbcr k))))
               af ar Hall (getdata img)). }
  destruct key as [k |]; [apply Hgiven; exact Hkey |].
  destruct (getpixel img (1, 1)%nat) as [e | k] eqn:Hk.
  - rewrite !(compose_sampling_error _ _ _ _ None img e Himg Hk). reflexivity.
  - unfold remove_green_screen.
    rewrite !(locals_sampled_key _ _ _ _ None img k Himg Hk).
    apply Hgiven.
    rewrite Forall_forall in Hbytes. apply Hbytes.
    eapply getpixel_In. exact Hk.
Qed.

(** X14.  With the default tolerances and a key colour of bytes (or
    sampled from the frame), the compositor gives in binary64 exactly what
    it gives on real numbers: the same image, or the same exception. *)
Theorem binary64_compositor_agrees (frame : ndarray) (index : nat)
    (key : option ycbcr) :
  match key with None => True | Some k => byte_ycbcr k end ->
  compose_float frame index key None = compose_R frame index key None.
Proof. exact (compose_agrees frame index key). Qed.

(** X15.  The batch driver, which calls the compositor with its defaults,
    runs in binary64 exactly as on real numbers: the same images saved, the
    same indices printed, the same end. *)
Theorem binary64_batch_agrees (frames : list ndarray) (flag : option bool) :
  remove_green_screen_from_video (A := float) convert_YCbCr convert_RGB
    frames flag
  = remove_green_screen_from_video (A := R) convert_YCbCr convert_RGB
      frames flag.
Proof.
  unfold remove_green_screen_from_video.
  generalize (World [] []). generalize 0%nat.
  induction frames as [| frame rest IH]; intros idx w; cbn [process_frames];
    [reflexivity |].
  destruct (selected _ idx); [| apply IH].
  rewrite (compose_agrees frame idx None I).
  destruct (compose_R frame idx None None); [reflexivity | apply IH].
Qed.

End Binary64Compositor.

(** ** The compositor in binary64 *)

Section CompositorBinary64.

Variable convert_YCbCr : list Z -> ycbcr.
Variable convert_RGB : ycbcr -> Z * Z * Z.

Local Open Scope R_scope.

Local Notation "'locals_float'" :=
  (remove_green_screen_locals (A := float) convert_YCbCr convert_RGB).
Local Notation "'compose_float'" :=
  (remove_green_screen (A := float) convert_YCbCr convert_RGB).
Local Notation "'to_rgba'" := (convert_RGBA_pixel convert_RGB).

Lemma pixel_temp_bytes (k p : ycbcr) :
  byte_ycbcr k -> byte_ycbcr p ->
  exists temp : float,
    pixel_temp k p = Ok temp /\
    forall tol : float * float,
      classify k tol p = opacity_of_distance temp (fst tol) (snd tol).
Proof.
  destruct k as [[Yk Cbk] Crk], p as [[Yp Cbp] Crp]. cbn [byte_ycbcr].
  intros (_ & Hbk & Hrk) (_ & Hbp & Hrp).
  eexists. split.
  - apply chroma_temp_bytes; assumption.
  - intros [tola tolb]. cbn [classify fst snd].
    apply colorclose_bytes; assumption.
Qed.

Lemma classify_default (k p : ycbcr) :
  byte_ycbcr k -> byte_ycbcr p ->
  exists n : Z,
    classify (A := float) k (tolerance_or_default None) p
    = Ok (opacity_binary64 n) /\
    floor_row n = true.
Proof.
  destruct k as [[Yk Cbk] Crk], p as [[Yp Cbp] Crp]. cbn [byte_ycbcr].
  intros (_ & Hbk & Hrk) (_ & Hbp & Hrp).
  exists (squared_distance Cbp Crp Cbk Crk). split.
  - apply colorclose_bytes_default; assumption.
  - apply (at_squared_distance floor_row); [exact floor_table | assumption ..].
Qed.

Lemma classify_returns (k p : ycbcr) (tol : float * float) :
  byte_ycbcr k -> byte_ycbcr p -> exists a, classify k tol p = Ok a.
Proof.
  intros Hk Hp.
  destruct (pixel_temp_bytes k p Hk Hp) as (temp & _ & Hclass).
  rewrite Hclass. apply opacity_of_distance_returns.
Qed.

(** The compositor returns on an accepted frame, with a key colour of
    bytes, whatever the tolerance; its locals. *)
Lemma locals_binary64 (frame : ndarray) (index : nat) (key : option ycbcr)
    (tol : option (float * float)) :
  accepts frame key = true -> key_bytes key ->
  exists l,
    locals_float frame index key tol = Ok l /\
    compose_float frame index key tol = Ok (cleaned l) /\
    tolerance l = tolerance_or_default tol /\
    byte_ycbcr (keyColor l) /\
    Forall byte_ycbcr (getdata (inDataFG l)) /\
    Forall2 (fun p a => classify (keyColor l) (tolerance l) p = Ok a)
            (getdata (inDataFG l)) (alphaMask l).
Proof.
  intros Hacc Hkey.
  assert (Hbyte : forall img k,
             fromarray_YCbCr convert_YCbCr frame = Ok img ->
             match key with
             | None => getpixel img (1, 1)%nat = Ok k
             | Some k' => k' = k
             end ->
             byte_ycbcr k /\ Forall byte_ycbcr (getdata img)).
  { intros img k Himg Hk.
    destruct (fromarray_bytes convert_YCbCr frame img Himg) as (Hbytes & _).
    split; [| exact Hbytes].
    destruct key as [k' |]; [subst k'; exact Hkey |].
    rewrite Forall_forall in Hbytes. apply Hbytes.
    eapply getpixel_In. exact Hk. }
  destruct (locals_returns convert_YCbCr convert_RGB frame index key tol Hacc)
    as [l Hl].
  { intros img k Himg Hk. destruct (Hbyte img k Himg Hk) as [Hkb Hdata].
    eapply Forall_impl; [| exact Hdata]. cbv beta. intros p Hp.
    apply classify_returns; assumption. }
  destruct (locals_inv convert_YCbCr convert_RGB frame index key tol l Hl)
    as (Hdec & Hk & Ht & _ & Halpha & _).
  destruct (Hbyte (inDataFG l) (keyColor l) Hdec) as [Hkb Hdata].
  { destruct key as [k' |]; [now symmetry | exact Hk]. }
  exists l. split; [exact Hl |].
  split; [unfold remove_green_screen; rewrite Hl; reflexivity |].
  split; [exact Ht |]. split; [exact Hkb |]. split; [exact Hdata |].
  apply mapM_Ok_inv. exact Halpha.
Qed.

Lemma invert_byte_ends :
  invert_byte (A := float) (of_Z 0) = 255%Z
  /\ invert_byte (A := float) (of_Z 255) = 0%Z.
Proof. split; vm_compute; reflexivity. Qed.

(** C2, as the code has it.  No tolerance pair is rejected, and none makes
    the compositor raise: on a frame it can read, with a key colour of
    bytes, it returns an image whatever the pair, negative, inverted or
    equal; the division of line 27 is never by zero.  With [tolb <= tola]
    no division is executed: the alpha mask holds exactly 0.0 where the
    computed distance is below [tola] and exactly 255.0 elsewhere, and
    every pixel of the output is fully transparent or fully opaque. *)
Theorem tolerance_never_rejected (frame : ndarray) (index : nat)
    (key : option ycbcr) (tola tolb : float) :
  accepts frame key = true -> key_bytes key ->
  exists l,
    locals_float frame index key (Some (tola, tolb)) = Ok l /\
    compose_float frame index key (Some (tola, tolb)) = Ok (cleaned l) /\
    tolerance l = (tola, tolb) /\
    (PrimFloat.leb tolb tola = true ->
     Forall2 (fun (p : ycbcr) (a : float) =>
                exists temp,
                  pixel_temp (keyColor l) p = Ok temp /\
                  a = if PrimFloat.ltb temp tola then of_Z 0 else of_Z 255)
             (getdata (inDataFG l)) (alphaMask l) /\
     Forall (fun o => o = 0%Z \/ o = 255%Z) (alpha_channel (cleaned l))).
Proof.
  intros Hacc Hkey.
  destruct (locals_binary64 frame index key (Some (tola, tolb)) Hacc Hkey)
    as (l & Hl & Hout & Ht & Hkb & Hdata & Hclass).
  exists l. split; [exact Hl |]. split; [exact Hout |]. split; [exact Ht |].
  intros Hdeg.
  assert (Hstep :
    Forall2 (fun (p : ycbcr) (a : float) =>
               exists temp,
                 pixel_temp (keyColor l) p = Ok temp /\
                 a = if PrimFloat.ltb temp tola then of_Z 0 else of_Z 255)
            (getdata (inDataFG l)) (alphaMask l)).
  { apply (Forall2_Forall_l _ _ _ _ _ Hdata Hclass). cbv beta.
    intros p a Hp Ha.
    destruct (pixel_temp_bytes (keyColor l) p Hkb Hp) as (temp & Htemp & Hsplit).
    exists temp. split; [exact Htemp |].
    rewrite Hsplit, Ht in Ha. cbn [tolerance_or_default fst snd] in Ha.
    rewrite (opacity_of_distance_degenerate _ _ _ Hdeg) in Ha.
    unfold Ok in Ha. congruence. }
  split; [exact Hstep |].
  destruct (alpha_channels convert_YCbCr convert_RGB frame index key _ l Hl)
    as [_ Halpha].
  destruct (locals_inv convert_YCbCr convert_RGB frame index key _ l Hl)
    as (_ & _ & _ & _ & _ & _ & Hinv & _).
  rewrite Halpha, Hinv. cbn [getdata]. rewrite map_map.
  apply Forall_map.
  assert (Hvals : Forall (fun a : float => a = of_Z 0 \/ a = of_Z 255) (alphaMask l)).
  { clear - Hstep. induction Hstep as [| p a ps als (temp & _ & Ha) _ IH];
      constructor; [| exact IH].
    destruct (PrimFloat.ltb temp tola); [left | right]; exact Ha. }
  eapply Forall_impl; [| exact Hvals]. cbv beta.
  destruct invert_byte_ends as [E0 E255].
  intros a [-> | ->]; [left; rewrite E0 | right; rewrite E255]; reflexivity.
Qed.

(** The masks with the default tolerances. *)
Lemma alphaMask_default (frame : ndarray) (index : nat) (key : option ycbcr) :
  accepts frame key = true -> key_bytes key ->
  exists l,
    locals_float frame index key None = Ok l /\
    compose_float frame index key None = Ok (cleaned l) /\
    Forall (fun a => exists n, a = opacity_binary64 n /\ floor_row n = true)
           (alphaMask l).
Proof.
  intros Hacc Hkey.
  destruct (locals_binary64 frame index key None Hacc Hkey)
    as (l & Hl & Hout & Ht & Hkb & Hdata & Hclass).
  exists l. split; [exact Hl |]. split; [exact Hout |].
  clear - Ht Hkb Hdata Hclass. rewrite Ht in Hclass.
  induction Hclass as [| p a ps als Ha _ IH]; constructor.
  - inversion Hdata as [| ? ? Hp _]; subst.
    destruct (classify_default (keyColor l) p Hkb Hp) as (n & Hn & Hfl).
    exists n. split; [| exact Hfl]. rewrite Hn in Ha. unfold Ok in Ha. congruence.
  - apply IH. now inversion Hdata.
Qed.

(** C5, as the code has it.  The inverted mask is an image of bytes, the
    cast to [uint8] of [255 - 255 * (alphaMask / 255)] computed in binary64.
    With the default tolerances and a key colour of bytes it holds, at each
    pixel, the integer part of 255 minus the alpha mask, which lies
    between 0.0 and 255.0; it is 255 minus the alpha mask where that value
    is a whole number. *)
Theorem invertMask_integer_part (frame : ndarray) (index : nat)
    (key : option ycbcr) :
  accepts frame key = true -> key_bytes key ->
  exists l,
    locals_float frame index key None = Ok l /\
    invertMask l
    = Img (ncols frame) (nrows frame) (map invert_byte (alphaMask l)) /\
    Forall2 (fun (a : float) (m : Z) =>
               PrimFloat.leb (of_Z 0) a = true /\
               PrimFloat.leb a (of_Z 255) = true /\
               (0 <= m <= 255)%Z /\
               IZR m <= 255 - float_value a < IZR m + 1 /\
               (forall k : Z, float_value a = IZR k -> m = (255 - k)%Z))
            (alphaMask l) (getdata (invertMask l)).
Proof.
  intros Hacc Hkey.
  destruct (alphaMask_default frame index key Hacc Hkey) as (l & Hl & _ & Hrows).
  destruct (locals_inv convert_YCbCr convert_RGB frame index key _ l Hl)
    as (_ & _ & _ & _ & _ & _ & Hinv & _).
  exists l. split; [exact Hl |]. split; [exact Hinv |].
  rewrite Hinv. cbn [getdata]. apply Forall2_map_self.
  eapply Forall_impl; [| exact Hrows]. cbv beta.
  intros a (n & -> & Hfl).
  destruct (floor_row_spec n Hfl) as (H0 & H255 & Hbyte & Hfloor).
  repeat split; try tauto; try lia.
  intros k Hk. rewrite Hk in Hfloor.
  assert (IZR (invert_byte (opacity_binary64 n)) < IZR (255 - k + 1))
    by (rewrite plus_IZR, minus_IZR; lra).
  assert (IZR (255 - k - 1) < IZR (invert_byte (opacity_binary64 n)))
    by (rewrite !minus_IZR; lra).
  apply lt_IZR in H, H1. lia.
Qed.

(** C10, as the code has it.  Whatever the tolerance, in a call that
    returns the alpha channel of the spill layer is the inverted mask and
    the alpha channel of the output is 255 minus the inverted mask.  With
    the default tolerances that is the alpha mask rounded up to a whole
    number: a pixel of alpha 0 comes out transparent, one of alpha 255
    opaque, and a pixel of alpha 2.83 gets 3. *)
Theorem output_alpha_channel (frame : ndarray) (index : nat)
    (key : option ycbcr) :
  accepts frame key = true -> key_bytes key ->
  (forall (tol : option (float * float)) (l : locals),
      locals_float frame index key tol = Ok l ->
      alpha_channel (colorMask l) = getdata (invertMask l) /\
      alpha_channel (cleaned l)
      = map (fun m => (255 - m)%Z) (getdata (invertMask l))) /\
  exists l,
    locals_float frame index key None = Ok l /\
    compose_float frame index key None = Ok (cleaned l) /\
    Forall2 (fun (a : float) (o : Z) =>
               float_value a <= IZR o < float_value a + 1 /\
               (forall k : Z, float_value a = IZR k -> o = k))
            (alphaMask l) (alpha_channel (cleaned l)).
Proof.
  intros Hacc Hkey. split.
  { intros tol l Hl.
    exact (alpha_channels convert_YCbCr convert_RGB frame index key tol l Hl). }
  destruct (alphaMask_default frame index key Hacc Hkey)
    as (l & Hl & Hout & Hrows).
  destruct (locals_inv convert_YCbCr convert_RGB frame index key _ l Hl)
    as (_ & _ & _ & _ & _ & _ & Hinv & _).
  destruct (alpha_channels convert_YCbCr convert_RGB frame index key _ l Hl)
    as [_ Halpha].
  exists l. split; [exact Hl |]. split; [exact Hout |].
  rewrite Halpha, Hinv. cbn [getdata]. rewrite map_map.
  apply Forall2_map_self.
  eapply Forall_impl; [| exact Hrows]. cbv beta.
  intros a (n & -> & Hfl).
  destruct (floor_row_spec n Hfl) as (_ & _ & Hbyte & Hfloor).
  rewrite minus_IZR. split; [lra |].
  intros k Hk. rewrite Hk in Hfloor.
  assert (IZR (invert_byte (opacity_binary64 n)) < IZR (255 - k + 1))
    by (rewrite plus_IZR, minus_IZR; lra).
  assert (IZR (255 - k - 1) < IZR (invert_byte (opacity_binary64 n)))
    by (rewrite !minus_IZR; lra).
  apply lt_IZR in H, H0. lia.
Qed.

(** X7.  In binary64, with a key colour of bytes, the compositor returns
    an image exactly for the frames it accepts: an array of 2, 3 or 4
    channels with a pixel at (1, 1) when the key is to be sampled, with at
    least one pixel when the key is given.  The tolerance plays no part
    in it. *)
Theorem composes_iff_accepted (frame : ndarray) (index : nat)
    (key : option ycbcr) (tol : option (float * float)) :
  key_bytes key ->
  ((exists out, compose_float frame index key tol = Ok out)
   <-> accepts frame key = true).
Proof.
  intros Hkey. split.
  - intros [out Hout].
    exact (returns_only_if_accepted convert_YCbCr convert_RGB
             frame index key tol out Hout).
  - intros Hacc.
    destruct (locals_binary64 frame index key tol Hacc Hkey)
      as (l & _ & Hout & _).
    exists (cleaned l). exact Hout.
Qed.


End CompositorBinary64.

(** ** The further properties on concrete frames *)

Section MoreInstances.

Local Notation "'compose_R'" :=
  (remove_green_screen (A := R) jfif_YCbCr jfif_RGB).
Local Notation "'compose_float'" :=
  (remove_green_screen (A := float) jfif_YCbCr jfif_RGB).
Local Notation "'video_float'" :=
  (remove_green_screen_from_video (A := float) jfif_YCbCr jfif_RGB).

(** The black frame with the key sampled: every pixel is keyed out. *)
Lemma black_frame_keyed_binary64 :
  compose_float black_frame 0%nat None None
  = Ok (Img 2 2 (repeat (0, 0, 0, 0)%Z 4)).
Proof. vm_compute. reflexivity. Qed.

(** X1 at the black frame, in binary64. *)
Lemma output_has_frame_size_witness :
  length (repeat (0, 0, 0, 0)%Z 4) = (2 * 2)%nat.
Proof.
  destruct (output_has_frame_size (A := float) jfif_YCbCr jfif_RGB
              black_frame 0 None None (Img 2 2 (repeat (0, 0, 0, 0)%Z 4))
              black_frame_keyed_binary64) as (_ & _ & Hlen & _).
  exact Hlen.
Defined.

(** X2 at the black frame, in binary64. *)
Lemma output_not_above_input_witness :
  exists img,
    fromarray_YCbCr jfif_YCbCr black_frame = Ok img /\
    Forall2 (fun (p : ycbcr) (q : rgba) =>
               byte_rgba q /\ rgba_le q (convert_RGBA_pixel jfif_RGB p))
            (getdata img) (repeat (0, 0, 0, 0)%Z 4).
Proof.
  exact (output_not_above_input (A := float) jfif_YCbCr jfif_RGB
           black_frame 0 None None (Img 2 2 (repeat (0, 0, 0, 0)%Z 4))
           black_frame_keyed_binary64).
Defined.

Lemma six_frames_selected (b b' : ndarray) (i : nat) (f f' : ndarray) :
  selected false i = true ->
  nth_error (six_frames b) i = Some f ->
  nth_error (six_frames b') i = Some f' ->
  f = f'.
Proof.
  unfold six_frames.
  do 6 (destruct i as [| i]; [cbn; intros; congruence |]).
  cbn. destruct i; discriminate.
Defined.

(** X10 at six frames: whether the four frames between are black or
    unreadable makes no difference. *)
Lemma unselected_frames_ignored_witness :
  video_float (six_frames five_channel_frame) (Some false)
  = video_float (six_frames black_frame) (Some false).
Proof.
  exact (unselected_frames_ignored (A := float) jfif_YCbCr jfif_RGB
           (six_frames five_channel_frame) (six_frames black_frame)
           (Some false) eq_refl
           (six_frames_selected five_channel_frame black_frame)).
Defined.

Lemma twelve_black_frames_binary64 :
  video_float (repeat black_frame 12) (Some false)
  = (fst (video_float (repeat black_frame 12) (Some false)), Ok tt).
Proof. vm_compute. reflexivity. Qed.

(** X11 at twelve black frames, one in five processed: three images. *)
Lemma number_of_outputs_witness :
  length (saved (fst (video_float (repeat black_frame 12) (Some false))))
  = 3%nat.
Proof.
  exact (number_of_outputs (A := float) jfif_YCbCr jfif_RGB
           (repeat black_frame 12) (Some false) _
           twelve_black_frames_binary64).
Defined.

(** X14 at the black frame with the key (0, 128, 159). *)
Lemma binary64_compositor_agrees_witness :
  compose_float black_frame 0%nat (Some (0, 128, 159)%Z) None
  = compose_R black_frame 0%nat (Some (0, 128, 159)%Z) None.
Proof.
  apply (binary64_compositor_agrees jfif_YCbCr jfif_RGB black_frame 0
           (Some (0, 128, 159)%Z)).
  cbn. lia.
Defined.

End MoreInstances.

(** The value of a float literal, as a fraction. *)
Ltac float_value_eval a :=
  match eval vm_compute in (Prim2SF a) with
  | S754_finite false ?m ?e =>
      rewrite (float_value_fraction a m e) by (vm_compute; reflexivity);
      let p := eval vm_compute in (2 ^ (- e))%Z in
      change (2 ^ (- e))%Z with p
  end.

Section Binary64Instances.

Local Open Scope R_scope.

Local Notation "'locals_float'" :=
  (remove_green_screen_locals (A := float) jfif_YCbCr jfif_RGB).
Local Notation "'compose_float'" :=
  (remove_green_screen (A := float) jfif_YCbCr jfif_RGB).







(** C2 at the black frame with the tolerance (0, 0). *)
Lemma tolerance_never_rejected_witness :
  exists l,
    locals_float black_frame 0%nat None (Some (of_Z 0, of_Z 0)) = Ok l /\
    Forall (fun o => o = 0%Z \/ o = 255%Z) (alpha_channel (cleaned l)).
Proof.
  destruct (tolerance_never_rejected jfif_YCbCr jfif_RGB black_frame 0
              None (of_Z 0) (of_Z 0) eq_refl I)
    as (l & Hl & _ & _ & Hstep).
  exists l. split; [exact Hl |]. apply Hstep. reflexivity.
Defined.

(** With other tolerances the rounding of line 67 can lose the integer
    part: with the tolerances (0, 5.1) and a pixel at distance 1 the alpha
    is 50.000000000000007, and the inverted byte 205 is above 255 minus
    it. *)
Example inverted_byte_above_at_tolerance_0_5_1 :
  colorclose (A := float) (of_Z 128) (of_Z 128) (of_Z 128) (of_Z 129)
    (of_Z 0) 5.1%float = Ok 50.000000000000007%float /\
  invert_byte (A := float) 50.000000000000007%float = 205%Z /\
  255 - float_value 50.000000000000007%float < IZR 205.
Proof.
  split; [vm_compute; reflexivity |]. split; [vm_compute; reflexivity |].
  float_value_eval 50.000000000000007%float. lra.
Qed.

(** C5 at the black frame with the key (0, 128, 159). *)
Lemma invertMask_integer_part_witness :
  exists l,
    locals_float black_frame 0%nat (Some (0, 128, 159)%Z) None = Ok l /\
    Forall2 (fun (a : float) (m : Z) =>
               IZR m <= 255 - float_value a < IZR m + 1)
            (alphaMask l) (getdata (invertMask l)).
Proof.
  destruct (invertMask_integer_part jfif_YCbCr jfif_RGB black_frame 0
              (Some (0, 128, 159)%Z) eq_refl ltac:(cbn; lia))
    as (l & Hl & _ & Hall).
  exists l. split; [exact Hl |].
  eapply Forall2_impl; [| exact Hall]. cbv beta. tauto.
Defined.

(** C6 at the black frame, in binary64: the pixel at (1, 1) is
    (0, 128, 128). *)
Lemma defaults_resolved_witness :
  exists l,
    locals_float black_frame 0%nat None None = Ok l /\
    keyColor l = (0, 128, 128)%Z /\
    tolerance l = (of_Z 30, of_Z 120).
Proof.
  destruct (locals_float black_frame 0%nat None None) as [e | l] eqn:Hl;
    [vm_compute in Hl; discriminate |].
  destruct (defaults_resolved jfif_YCbCr jfif_RGB black_frame 0 None None l Hl)
    as (Hdec & [Hk _] & Ht & _).
  exists l. split; [reflexivity |]. split; [| exact Ht].
  rewrite black_frame_decoded in Hdec. injection Hdec as Hdec.
  rewrite <- Hdec in Hk.
  change (Ok (0, 128, 128)%Z = Ok (keyColor l)) in Hk.
  injection Hk as Hk. now symmetry.
Defined.

(** C10 at the black frame with the key (0, 128, 159). *)
Lemma output_alpha_channel_witness :
  exists l,
    locals_float black_frame 0%nat (Some (0, 128, 159)%Z) None = Ok l /\
    alpha_channel (colorMask l) = getdata (invertMask l) /\
    Forall2 (fun (a : float) (o : Z) => float_value a <= IZR o < float_value a + 1)
            (alphaMask l) (alpha_channel (cleaned l)).
Proof.
  destruct (output_alpha_channel jfif_YCbCr jfif_RGB black_frame 0
              (Some (0, 128, 159)%Z) eq_refl ltac:(cbn; lia))
    as (Hany & l & Hl & _ & Hall).
  exists l. split; [exact Hl |].
  split; [apply (Hany None l Hl) |].
  eapply Forall2_impl; [| exact Hall]. cbv beta. tauto.
Defined.

(** X4 at the black frame with the keys (0, 128, 159) and (10, 128, 159). *)
Lemma key_luma_irrelevant_witness :
  match locals_float black_frame 0%nat (Some (0, 128, 159)%Z) None,
        locals_float black_frame 0%nat (Some (10, 128, 159)%Z) None with
  | inr l1, inr l2 =>
      alphaMask l1 = alphaMask l2 /\
      imMask l1 = imMask l2 /\
      invertMask l1 = invertMask l2 /\
      alpha_channel (cleaned l1) = alpha_channel (cleaned l2)
  | inl e1, inl e2 => e1 = e2
  | _, _ => False
  end.
Proof.
  apply (key_luma_irrelevant (A := float) jfif_YCbCr jfif_RGB black_frame 0
           0 10 128 159 None); cbn; lia.
Defined.

(** X5 at two pixels at distances 31 and 72 of the key (128, 128). *)
Lemma colorclose_lipschitz_witness :
  exists z1 z2 : float,
    colorclose (of_Z 128) (of_Z 159) (of_Z 128) (of_Z 128)
      (of_Z 30) (of_Z 120) = Ok z1 /\
    colorclose (of_Z 128) (of_Z 200) (of_Z 128) (of_Z 128)
      (of_Z 30) (of_Z 120) = Ok z2 /\
    PrimFloat.leb z1 z2 = true /\
    float_value z2 - float_value z1 <= 255 * (72 - 31) / (120 - 30) + / 2 ^ 43.
Proof.
  assert (H31 : chroma_distance 128 159 128 128 = 31).
  { unfold chroma_distance.
    replace ((128 - 128) * (128 - 128) + (128 - 159) * (128 - 159))
      with (31 * 31) by ring.
    apply sqrt_square; lra. }
  assert (H72 : chroma_distance 128 200 128 128 = 72).
  { unfold chroma_distance.
    replace ((128 - 128) * (128 - 128) + (128 - 200) * (128 - 200))
      with (72 * 72) by ring.
    apply sqrt_square; lra. }
  destruct (colorclose_lipschitz 128 159 128 200 128 128)
    as (z1 & z2 & H1 & H2 & Hle & Hb); try lia.
  - rewrite H31, H72. lra.
  - rewrite H31, H72 in Hb. exists z1, z2. repeat split; assumption.
Defined.

(** X7 at the black frame, with the key sampled and the default
    tolerances. *)
Lemma composes_iff_accepted_witness :
  (exists out, compose_float black_frame 0%nat None None = Ok out)
  <-> accepts black_frame None = true.
Proof.
  exact (composes_iff_accepted jfif_YCbCr jfif_RGB black_frame 0 None None I).
Defined.


End Binary64Instances.
